(** * bfbin2text: rendering Byfl binary tables as delimited text

    A shallow embedding of [tools/postproc/bfbin2text.cpp]: the escape
    expander applied to the column separator, the CSV quoter, the table
    filter and the callbacks through which the binary-format decoder drives
    the renderer, then the constructor that reads the command line and the
    program name computed in [main].

    Conventions of the embedding:
    - a [std::string] or C string is a [string]; [out_str += c] is
      [push_back out_str c];
    - [size_t], [uint64_t] and [uint8_t] values are [N]; the increment of a
      [size_t] wraps at [2^64] (LP64);
    - an [unordered_set<string>] is a [gset string];
    - the output stream is the text written to it so far (field [outfile]);
    - [cerr << ... << die] ends the process: a function that can reach it
      returns an [outcome]. *)

From Stdlib Require Import Ascii String NArith DecimalString DecimalN.
From stdpp Require Import base tactics option list gmap strings.

(* String append unfolds on a constructor, as list append does. *)
Local Arguments String.append !_ _ / : simpl nomatch.

(** ** Characters the source names by escape sequences *)

Definition tab : ascii := "009"%char.
Definition newline : ascii := "010"%char.
Definition carriage_return : ascii := "013"%char.
Definition dquote : ascii := "034"%char.
Definition apostrophe : ascii := "039"%char.
Definition backslash : ascii := "092"%char.

(** The double quote and the newline as one-character strings. *)
Definition dq : string := String dquote "".
Definition nl : string := String newline "".

(** [out_str += c] *)
Definition push_back (out_str : string) (c : ascii) : string :=
  out_str +:+ String c "".

(** ** Fatal exits *)

(** The one fatal error of the functions modelled here: the default branch
    of the escape switch, which reports the offending character and the
    whole input string before [die] exits with status 1. *)
Inductive fatal : Type :=
  | InvalidEscapeSequence (c : ascii) (in_str : string).

Inductive outcome (A : Type) : Type :=
  | Returned (a : A)
  | Died (e : fatal).
Arguments Returned {A} a.
Arguments Died {A} e.

(** The line written to [cerr] before the process exits. *)
Definition fatal_message (progname : string) (e : fatal) : string :=
  match e with
  | InvalidEscapeSequence c in_str =>
      progname +:+ ": Unrecognized escape sequence "
        +:+ String dquote (String backslash (String c (String dquote "")))
        +:+ " in " +:+ String dquote in_str
        +:+ String dquote (String newline "")
  end.

(** ** [LocalState::expand_escapes] *)

(** The body of the [for] loop, from iterator position [iter] on, with the
    two loop-carried locals [out_str] and [escape_next]. *)
Fixpoint expand_escapes_from (in_str iter out_str : string)
    (escape_next : bool) : outcome string :=
  match iter with
  | EmptyString => Returned out_str
  | String c iter' =>
      if escape_next then
        (* The previous character was a backslash. *)
        if Ascii.eqb c backslash || Ascii.eqb c apostrophe || Ascii.eqb c dquote
        then expand_escapes_from in_str iter' (push_back out_str c) false
        else if Ascii.eqb c "t"
        then expand_escapes_from in_str iter' (push_back out_str tab) false
        else if Ascii.eqb c "n"
        then expand_escapes_from in_str iter' (push_back out_str newline) false
        else if Ascii.eqb c "r"
        then expand_escapes_from in_str iter'
               (push_back out_str carriage_return) false
        else Died (InvalidEscapeSequence c in_str)
      else
        (* The previous character was not a backslash. *)
        if Ascii.eqb c backslash
        then expand_escapes_from in_str iter' out_str true
        else expand_escapes_from in_str iter' (push_back out_str c) false
  end.

Definition expand_escapes (in_str : string) : outcome string :=
  expand_escapes_from in_str in_str "" false.

(** ** [quote_for_csv] *)

(** The [for] loop of the quoter from position [iter] on. *)
Fixpoint quote_for_csv_from (iter out_str : string) : string :=
  match iter with
  | EmptyString => out_str
  | String c iter' =>
      let out_str :=
        if Ascii.eqb c dquote then push_back out_str dquote else out_str in
      quote_for_csv_from iter' (push_back out_str c)
  end.

Definition quote_for_csv (in_str : string) : string :=
  let out_str := "" in
  let out_str :=
    if bool_decide (0 < String.length in_str)
       && bool_decide (String.get 0 in_str = Some "-"%char)
    then push_back out_str "="
    else out_str in
  let out_str := push_back out_str dquote in
  let out_str := quote_for_csv_from in_str out_str in
  push_back out_str dquote.

(** ** The parsing state *)

Record LocalState : Type := mkLocalState {
  infilename : string;                (* Name of the input file *)
  outfilename : string;               (* Name of the output file *)
  outfile : string;                   (* Text written to the output stream *)
  tablenum : N;                       (* Current table number *)
  colsep : string;                    (* Column separator *)
  colnum : N;                         (* Current column number *)
  included_tables : gset string;      (* Set of tables to include *)
  excluded_tables : gset string;      (* Set of tables to exclude *)
  suppress_table : bool;              (* true=skip the current table *)
  only_names : bool                   (* true=show only table names *)
}.

(** The field initialisations at the top of the constructor. *)
Definition initial_state : LocalState :=
  {| infilename := ""; outfilename := ""; outfile := "";
     tablenum := 0; colsep := ","; colnum := 0;
     included_tables := ∅; excluded_tables := ∅;
     suppress_table := false; only_names := false |}.

Definition size_t_wrap (n : N) : N := (n mod 2 ^ 64)%N.

(** [*lstate->outfile << text] *)
Definition write (text : string) (st : LocalState) : LocalState :=
  {| infilename := infilename st; outfilename := outfilename st;
     outfile := outfile st +:+ text;
     tablenum := tablenum st; colsep := colsep st; colnum := colnum st;
     included_tables := included_tables st;
     excluded_tables := excluded_tables st;
     suppress_table := suppress_table st; only_names := only_names st |}.

Definition set_tablenum (n : N) (st : LocalState) : LocalState :=
  {| infilename := infilename st; outfilename := outfilename st;
     outfile := outfile st;
     tablenum := n; colsep := colsep st; colnum := colnum st;
     included_tables := included_tables st;
     excluded_tables := excluded_tables st;
     suppress_table := suppress_table st; only_names := only_names st |}.

Definition set_colnum (n : N) (st : LocalState) : LocalState :=
  {| infilename := infilename st; outfilename := outfilename st;
     outfile := outfile st;
     tablenum := tablenum st; colsep := colsep st; colnum := n;
     included_tables := included_tables st;
     excluded_tables := excluded_tables st;
     suppress_table := suppress_table st; only_names := only_names st |}.

Definition set_suppress_table (b : bool) (st : LocalState) : LocalState :=
  {| infilename := infilename st; outfilename := outfilename st;
     outfile := outfile st;
     tablenum := tablenum st; colsep := colsep st; colnum := colnum st;
     included_tables := included_tables st;
     excluded_tables := excluded_tables st;
     suppress_table := b; only_names := only_names st |}.

(** Command-line settings, as the option switch of the constructor stores
    them: [-l], [-i NAME] and [-e NAME]. *)
Definition set_only_names (b : bool) (st : LocalState) : LocalState :=
  {| infilename := infilename st; outfilename := outfilename st;
     outfile := outfile st;
     tablenum := tablenum st; colsep := colsep st; colnum := colnum st;
     included_tables := included_tables st;
     excluded_tables := excluded_tables st;
     suppress_table := suppress_table st; only_names := b |}.

Definition include_table (name : string) (st : LocalState) : LocalState :=
  {| infilename := infilename st; outfilename := outfilename st;
     outfile := outfile st;
     tablenum := tablenum st; colsep := colsep st; colnum := colnum st;
     included_tables := {[name]} ∪ included_tables st;
     excluded_tables := excluded_tables st;
     suppress_table := suppress_table st; only_names := only_names st |}.

Definition exclude_table (name : string) (st : LocalState) : LocalState :=
  {| infilename := infilename st; outfilename := outfilename st;
     outfile := outfile st;
     tablenum := tablenum st; colsep := colsep st; colnum := colnum st;
     included_tables := included_tables st;
     excluded_tables := {[name]} ∪ excluded_tables st;
     suppress_table := suppress_table st; only_names := only_names st |}.

(** ** The callbacks *)

(** The value assigned to [suppress_table] at the start of
    [begin_any_table]. *)
Definition should_suppress (st : LocalState) (name : string) : bool :=
  (bool_decide (0 < size (included_tables st))
     && bool_decide (name ∉ included_tables st))
  || bool_decide (name ∈ excluded_tables st).

(** The text sent by [<< value] for a [uint64_t]. *)
Definition uint64_text (value : N) : string :=
  NilZero.string_of_uint (N.to_uint value).

(** The operand [(value == 0 ? FALSE : TRUE)] of the bool writer. *)
Definition bool_text (value : N) : string :=
  if (value =? 0)%N then "FALSE" else "TRUE".

Definition begin_any_table (st : LocalState) (tablename : string)
    : LocalState :=
  let name := tablename in
  (* Determine if we should show or suppress the current table. *)
  let st := set_suppress_table (should_suppress st name) st in
  if suppress_table st then st
  else
    (* Output the name of the current table. *)
    let st :=
      if only_names st then set_suppress_table true st
      else
        let old := tablenum st in
        let st := set_tablenum (size_t_wrap (old + 1)) st in
        if (0 <? old)%N then write (String newline "") st else st in
    write (String newline "") (write (quote_for_csv name) st).

Definition begin_row (st : LocalState) : LocalState :=
  if suppress_table st then st else set_colnum 0 st.

Definition any_column_header (st : LocalState) (colname : string)
    : LocalState :=
  if suppress_table st then st
  else
    let st := if (0 <? colnum st)%N then write (colsep st) st else st in
    let st := write (quote_for_csv colname) st in
    set_colnum (size_t_wrap (colnum st + 1)) st.

Definition end_row (st : LocalState) : LocalState :=
  if suppress_table st then st else write (String newline "") st.

Definition write_uint64_value (st : LocalState) (value : N) : LocalState :=
  if suppress_table st then st
  else
    let st := if (0 <? colnum st)%N then write (colsep st) st else st in
    let st := write (uint64_text value) st in
    set_colnum (size_t_wrap (colnum st + 1)) st.

Definition write_string_value (st : LocalState) (value : string)
    : LocalState :=
  if suppress_table st then st
  else
    let st := if (0 <? colnum st)%N then write (colsep st) st else st in
    let st := write (quote_for_csv value) st in
    set_colnum (size_t_wrap (colnum st + 1)) st.

Definition write_bool_value (st : LocalState) (value : N) : LocalState :=
  if suppress_table st then st
  else
    let st := if (0 <? colnum st)%N then write (colsep st) st else st in
    let st := write (bool_text value) st in
    set_colnum (size_t_wrap (colnum st + 1)) st.

(** ** The decoder's calls *)

(** One constructor per callback slot that [main] fills in; the slots it
    leaves null (the table-end ones) produce no call.  The error callback
    ends the process, so a stream is the sequence of structural calls made
    before the decoder returns or reports an error. *)
Inductive event : Type :=
  | table_begin_basic (tablename : string)
  | table_begin_keyval (tablename : string)
  | column_begin
  | column_uint64 (colname : string)
  | column_string (colname : string)
  | column_bool (colname : string)
  | column_end
  | row_begin
  | data_uint64 (value : N)
  | data_string (value : string)
  | data_bool (value : N)
  | row_end.

(** The callback registered in [main] for each slot. *)
Definition callback (st : LocalState) (ev : event) : LocalState :=
  match ev with
  | table_begin_basic tablename => begin_any_table st tablename
  | table_begin_keyval tablename => begin_any_table st tablename
  | column_begin => begin_row st
  | column_uint64 colname => any_column_header st colname
  | column_string colname => any_column_header st colname
  | column_bool colname => any_column_header st colname
  | column_end => end_row st
  | row_begin => begin_row st
  | data_uint64 value => write_uint64_value st value
  | data_string value => write_string_value st value
  | data_bool value => write_bool_value st value
  | row_end => end_row st
  end.

(** [bf_process_byfl_file] as the renderer sees it: the callbacks run in
    stream order on the one state. *)
Definition bf_process_byfl_file (st : LocalState) (evs : list event)
    : LocalState :=
  fold_left callback evs st.

(** ** Vocabulary of the specification *)

(** The table of recognized escapes: the character after the backslash and
    the character it stands for. *)
Definition escape_table : list (ascii * ascii) :=
  [ (backslash, backslash); (apostrophe, apostrophe); (dquote, dquote);
    ("t"%char, tab); ("n"%char, newline); ("r"%char, carriage_return) ].

Fixpoint assoc (c : ascii) (tbl : list (ascii * ascii)) : option ascii :=
  match tbl with
  | [] => None
  | (k, v) :: tbl' => if Ascii.eqb c k then Some v else assoc c tbl'
  end.

Definition unescape (c : ascii) : option ascii := assoc c escape_table.

Definition recognized (c : ascii) : bool :=
  match unescape c with Some _ => true | None => false end.

(** Every backslash met when reading left to right, two characters at a
    time after a backslash, is followed by a recognized character. *)
Fixpoint well_escaped (s : string) : bool :=
  match s with
  | EmptyString => true
  | String c rest =>
      if Ascii.eqb c backslash then
        match rest with
        | EmptyString => false
        | String e rest' => recognized e && well_escaped rest'
        end
      else well_escaped rest
  end.

(** The same condition read position by position: every backslash of the
    string, whether or not it opens an escape, has a recognized character
    right after it. *)
Fixpoint every_backslash_followed (s : string) : bool :=
  match s with
  | EmptyString => true
  | String c rest =>
      (if Ascii.eqb c backslash then
         match rest with
         | EmptyString => false
         | String e _ => recognized e
         end
       else true)
      && every_backslash_followed rest
  end.

(** Each two-character escape replaced by the character it stands for,
    every other character copied. *)
Fixpoint expand_spec (s : string) : string :=
  match s with
  | EmptyString => EmptyString
  | String c rest =>
      if Ascii.eqb c backslash then
        match rest with
        | EmptyString => EmptyString
        | String e rest' =>
            String (default e (unescape e)) (expand_spec rest')
        end
      else String c (expand_spec rest)
  end.

(** Some backslash that opens an escape is followed by an unrecognized
    character: [whole] splits into a well-escaped prefix, that backslash and
    the character [c], which [e] reports together with [in_str]. *)
Definition dies_at (in_str whole : string) (e : fatal) : Prop :=
  exists pre c rest,
    whole = pre +:+ String backslash (String c rest)
    /\ well_escaped pre = true
    /\ recognized c = false
    /\ e = InvalidEscapeSequence c in_str.

Definition first_char (s : string) : option ascii := String.get 0 s.

Fixpoint last_char (s : string) : option ascii :=
  match s with
  | EmptyString => None
  | String c rest =>
      match rest with
      | EmptyString => Some c
      | String _ _ => last_char rest
      end
  end.

Fixpoint count_char (c : ascii) (s : string) : nat :=
  match s with
  | EmptyString => 0
  | String d rest => (if Ascii.eqb d c then 1 else 0) + count_char c rest
  end.

(** Every character copied, a double quote written twice. *)
Fixpoint doubled (s : string) : string :=
  match s with
  | EmptyString => EmptyString
  | String c rest =>
      if Ascii.eqb c dquote
      then String dquote (String dquote (doubled rest))
      else String c (doubled rest)
  end.

(** A doubled double quote read as one, as a CSV reader does. *)
Fixpoint collapse (s : string) : string :=
  match s with
  | EmptyString => EmptyString
  | String c t =>
      if Ascii.eqb c dquote then
        match t with
        | EmptyString => String c EmptyString
        | String d u =>
            if Ascii.eqb d dquote
            then String dquote (collapse u)
            else String c (collapse t)
        end
      else String c (collapse t)
  end.

(** The quoting property as section 8 of the specification words it. *)
Definition quoted_both_ends (s : string) : Prop :=
  first_char (quote_for_csv s) = Some dquote
  /\ last_char (quote_for_csv s) = Some dquote
  /\ count_char dquote (quote_for_csv s) = 2 * count_char dquote s + 2.

(** The number a string of decimal digits denotes. *)
Definition decimal_value (s : string) : option N :=
  N.of_uint <$> NilZero.uint_of_string s.

(** The net effect the specification gives for a value in a table that is
    shown: the separator when the row already has a cell, the text of the
    value, one more column. *)
Definition cell_written (st : LocalState) (text : string) : LocalState :=
  {| infilename := infilename st; outfilename := outfilename st;
     outfile :=
       outfile st +:+ (if (0 <? colnum st)%N then colsep st else "") +:+ text;
     tablenum := tablenum st; colsep := colsep st;
     colnum := size_t_wrap (colnum st + 1);
     included_tables := included_tables st;
     excluded_tables := excluded_tables st;
     suppress_table := suppress_table st; only_names := only_names st |}.

Definition table_name (ev : event) : option string :=
  match ev with
  | table_begin_basic tablename | table_begin_keyval tablename =>
      Some tablename
  | _ => None
  end.

(** The text of the value a value callback is given. *)
Definition value_text (ev : event) : option string :=
  match ev with
  | column_uint64 colname | column_string colname | column_bool colname =>
      Some (quote_for_csv colname)
  | data_uint64 value => Some (uint64_text value)
  | data_string value => Some (quote_for_csv value)
  | data_bool value => Some (bool_text value)
  | _ => None
  end.

Definition is_row_begin (ev : event) : bool :=
  match ev with column_begin | row_begin => true | _ => false end.

(** The names of the tables of a stream that the filter lets through. *)
Definition shown_tables (st : LocalState) (evs : list event) : list string :=
  List.filter (fun name => negb (should_suppress st name))
    (omap table_name evs).

(** A stream whose first call, if any, begins a table. *)
Definition table_led (evs : list event) : bool :=
  match evs with
  | [] => true
  | ev :: _ => match table_name ev with Some _ => true | None => false end
  end.

Definition name_line (name : string) : string :=
  quote_for_csv name +:+ String newline "".

(** Name lines one after the other. *)
Fixpoint name_lines (names : list string) : string :=
  match names with
  | [] => ""
  | name :: names' => name_line name +:+ name_lines names'
  end.

(** Name lines, each with a blank line before it. *)
Fixpoint blank_led (names : list string) : string :=
  match names with
  | [] => ""
  | name :: names' =>
      String newline "" +:+ name_line name +:+ blank_led names'
  end.

(** Name lines with a blank line before each one but the first. *)
Definition blank_separated (names : list string) : string :=
  match names with
  | [] => ""
  | name :: names' => name_line name +:+ blank_led names'
  end.

(** Only-names output as section 8 of the specification words it: the name
    lines of the tables let through, a blank line before each but the
    first. *)
Definition names_blank_separated (st : LocalState) (evs : list event)
    : Prop :=
  outfile (bf_process_byfl_file st evs)
  = outfile st +:+ blank_separated (shown_tables st evs).

(** A stream of two tables, each with a header row of one column and one
    data row. *)
Definition two_tables : list event :=
  [ table_begin_basic "T1"; column_begin; column_uint64 "A"; column_end;
    row_begin; data_uint64 5; row_end;
    table_begin_keyval "T2"; column_begin; column_string "B"; column_end;
    row_begin; data_string "x"; row_end ].

(** The stream of the end-to-end example of the specification: table T1,
    header row A, B, one data row 5, x. *)
Definition table_T1 : list event :=
  [ table_begin_basic "T1"; column_begin; column_uint64 "A";
    column_string "B"; column_end; row_begin; data_uint64 5;
    data_string "x"; row_end ].

(** ** The constructor and the program name *)

Definition set_infilename (name : string) (st : LocalState) : LocalState :=
  {| infilename := name; outfilename := outfilename st;
     outfile := outfile st;
     tablenum := tablenum st; colsep := colsep st; colnum := colnum st;
     included_tables := included_tables st;
     excluded_tables := excluded_tables st;
     suppress_table := suppress_table st; only_names := only_names st |}.

Definition set_outfilename (name : string) (st : LocalState) : LocalState :=
  {| infilename := infilename st; outfilename := name;
     outfile := outfile st;
     tablenum := tablenum st; colsep := colsep st; colnum := colnum st;
     included_tables := included_tables st;
     excluded_tables := excluded_tables st;
     suppress_table := suppress_table st; only_names := only_names st |}.

Definition set_colsep (sep : string) (st : LocalState) : LocalState :=
  {| infilename := infilename st; outfilename := outfilename st;
     outfile := outfile st;
     tablenum := tablenum st; colsep := sep; colnum := colnum st;
     included_tables := included_tables st;
     excluded_tables := excluded_tables st;
     suppress_table := suppress_table st; only_names := only_names st |}.

(** Why the constructor ends the process instead of returning: the escape
    expander died, [getopt_long] returned 0, it returned a character that is
    no option of the program (the [default] branch), no or several input
    files were named, both [-i] and [-e] were given, or the output file
    could not be opened. *)
Inductive exit_reason : Type :=
  | BadEscape (e : fatal)
  | InternalError
  | UsageError
  | NoInputFile
  | ManyInputFiles
  | IncludeAndExclude
  | OpenFailed (name : string).

Inductive started (A : Type) : Type :=
  | Ready (a : A)
  | Exit (r : exit_reason).
Arguments Ready {A} a.
Arguments Exit {A} r.

(** The [while] loop over the values [getopt_long] returns, each with the
    [optarg] it sets; the end of the list is the return value -1. *)
Fixpoint process_options (st : LocalState) (opts : list (ascii * string))
    : started LocalState :=
  match opts with
  | [] => Ready st
  | (c, optarg) :: opts' =>
      if Ascii.eqb c "o" then
        process_options (set_outfilename optarg st) opts'
      else if Ascii.eqb c "c" then
        match expand_escapes optarg with
        | Returned sep => process_options (set_colsep sep st) opts'
        | Died e => Exit (BadEscape e)
        end
      else if Ascii.eqb c "i" then
        process_options (include_table optarg st) opts'
      else if Ascii.eqb c "e" then
        process_options (exclude_table optarg st) opts'
      else if Ascii.eqb c "l" then
        process_options (set_only_names true st) opts'
      else if Ascii.eqb c "000" then Exit InternalError
      else Exit UsageError
  end.

(** [LocalState::LocalState]. [opts] are the options in command-line order
    as [getopt_long] returns them, [operands] the arguments left from
    [optind] on, and [can_open] tells whether the named output file opens
    for writing. *)
Definition LocalState_ctor (can_open : string -> bool)
    (opts : list (ascii * string)) (operands : list string)
    : started LocalState :=
  match process_options initial_state opts with
  | Exit r => Exit r
  | Ready st =>
      (* Parse the remaining non-option, if any. *)
      match operands with
      | [] => Exit NoInputFile
      | [name] =>
          let st := set_infilename name st in
          (* Ensure that tables are either included or excluded, not both. *)
          if bool_decide (0 < size (excluded_tables st))
             && bool_decide (0 < size (included_tables st))
          then Exit IncludeAndExclude
          else
            (* Open the output file if specified. *)
            if bool_decide (outfilename st <> "") then
              if can_open (outfilename st) then Ready st
              else Exit (OpenFailed (outfilename st))
            else Ready st
      | _ :: _ :: _ => Exit ManyInputFiles
      end
  end.

(** [progname.rfind(c)]: the last position of [c], if any. *)
Fixpoint rfind (c : ascii) (s : string) : option nat :=
  match s with
  | EmptyString => None
  | String d rest =>
      match rfind c rest with
      | Some pos => Some (S pos)
      | None => if Ascii.eqb d c then Some 0 else None
      end
  end.

(** [s.erase(0, n)]: the string without its first [n] characters. *)
Fixpoint erase_front (n : nat) (s : string) : string :=
  match n, s with
  | S n', String _ rest => erase_front n' rest
  | _, _ => s
  end.

(** The first statements of [main]: the base name of [argv[0]]. *)
Definition progname_of (argv0 : string) : string :=
  let progname := argv0 in
  match rfind "/" progname with
  | Some slash_ofs => erase_front (slash_ofs + 1) progname
  | None => progname
  end.

(** The arguments of the options [c] of a command line, in order. *)
Definition optargs (c : ascii) (opts : list (ascii * string)) : list string :=
  map snd (List.filter (fun opt => Ascii.eqb (fst opt) c) opts).

(** The option characters the switch of the constructor accepts. *)
Definition known_option (c : ascii) : bool :=
  Ascii.eqb c "o" || Ascii.eqb c "c" || Ascii.eqb c "i" || Ascii.eqb c "e"
  || Ascii.eqb c "l".

(** ** Streams of whole tables *)

Definition set_outfile (text : string) (st : LocalState) : LocalState :=
  {| infilename := infilename st; outfilename := outfilename st;
     outfile := text;
     tablenum := tablenum st; colsep := colsep st; colnum := colnum st;
     included_tables := included_tables st;
     excluded_tables := excluded_tables st;
     suppress_table := suppress_table st; only_names := only_names st |}.

(** The state [st] with [text] on the stream ahead of what [st] wrote. *)
Definition after_text (text : string) (st : LocalState) : LocalState :=
  set_outfile (text +:+ outfile st) st.

Definition is_row_end (ev : event) : bool :=
  match ev with column_end | row_end => true | _ => false end.

(** A table as the decoder walks it: the kind of the table-begin call, the
    name, the columns of the header row with their types, the data rows. *)
Inductive column : Type :=
  | uint64_column (colname : string)
  | string_column (colname : string)
  | bool_column (colname : string).

Inductive cell : Type :=
  | uint64_cell (value : N)
  | string_cell (value : string)
  | bool_cell (value : N).

Record table : Type := mkTable {
  table_keyval : bool;
  table_title : string;
  table_columns : list column;
  table_rows : list (list cell)
}.

Definition column_event (col : column) : event :=
  match col with
  | uint64_column colname => column_uint64 colname
  | string_column colname => column_string colname
  | bool_column colname => column_bool colname
  end.

Definition cell_event (c : cell) : event :=
  match c with
  | uint64_cell value => data_uint64 value
  | string_cell value => data_string value
  | bool_cell value => data_bool value
  end.

Definition header_events (columns : list column) : list event :=
  column_begin :: map column_event columns ++ [column_end].

Definition row_events (cells : list cell) : list event :=
  row_begin :: map cell_event cells ++ [row_end].

Definition table_events (t : table) : list event :=
  (if table_keyval t then table_begin_keyval (table_title t)
   else table_begin_basic (table_title t))
  :: header_events (table_columns t)
  ++ concat (map row_events (table_rows t)).

Definition stream_of (tables : list table) : list event :=
  concat (map table_events tables).

Definition column_name (col : column) : string :=
  match col with
  | uint64_column colname | string_column colname | bool_column colname =>
      colname
  end.

Definition cell_text (c : cell) : string :=
  match c with
  | uint64_cell value => uint64_text value
  | string_cell value => quote_for_csv value
  | bool_cell value => bool_text value
  end.

Fixpoint concat_strings (texts : list string) : string :=
  match texts with
  | [] => ""
  | text :: texts' => text +:+ concat_strings texts'
  end.

(** Texts with [sep] between neighbours. *)
Fixpoint joined (sep : string) (texts : list string) : string :=
  match texts with
  | [] => ""
  | text :: texts' =>
      match texts' with
      | [] => text
      | _ :: _ => text +:+ sep +:+ joined sep texts'
      end
  end.

(** Texts as the callbacks write them one after the other when the counter
    ([colnum] for cells, [tablenum] for tables) stands at [k]: [sep] first
    when the counter is positive, and the counter wraps like a [size_t]. *)
Fixpoint texts_from (sep : string) (k : N) (texts : list string) : string :=
  match texts with
  | [] => ""
  | text :: texts' =>
      (if (0 <? k)%N then sep else "") +:+ text
        +:+ texts_from sep (size_t_wrap (k + 1)) texts'
  end.

(** A row of the grid: the cells joined by the separator, then a newline. *)
Definition row_text (sep : string) (texts : list string) : string :=
  joined sep texts +:+ nl.

(** The block of a table: name line, header row, data rows. *)
Definition table_text (sep : string) (t : table) : string :=
  name_line (table_title t)
    +:+ row_text sep (map (fun col => quote_for_csv (column_name col))
                        (table_columns t))
    +:+ concat_strings
          (map (fun cells => row_text sep (map cell_text cells))
             (table_rows t)).

Definition table_shown (st : LocalState) (t : table) : bool :=
  negb (should_suppress st (table_title t)).

(** A count that a [size_t] counter reaches without wrapping to 0 too
    early: [n] texts can be written from counter 0 with a separator before
    each but the first. *)
Definition fits_size_t (n : nat) : Prop := (N.of_nat n <= 2 ^ 64)%N.

Definition table_fits (t : table) : Prop :=
  fits_size_t (length (table_columns t))
  /\ Forall (fun cells => fits_size_t (length cells)) (table_rows t).

(** A small table with a minus sign, a double quote and a bool in it. *)
Definition sample_table : table :=
  {| table_keyval := false; table_title := "T";
     table_columns := [string_column "k"; uint64_column "n"; bool_column "b"];
     table_rows :=
       [ [string_cell "-x"; uint64_cell 7; bool_cell 1];
         [string_cell (String dquote ""); uint64_cell 0; bool_cell 0] ] |}.

(** The block of a table as the callbacks write it, the cells of each row
    counted by [colnum] from 0. *)
Definition table_written (sep : string) (t : table) : string :=
  name_line (table_title t)
    +:+ (texts_from sep 0
           (map (fun col => quote_for_csv (column_name col))
              (table_columns t)) +:+ nl)
    +:+ concat_strings
          (map (fun cells => texts_from sep 0 (map cell_text cells) +:+ nl)
             (table_rows t)).

(** * Properties *)

(** ** Strings *)

Lemma append_nil_r (s : string) : s +:+ "" = s.
Proof. induction s as [|c s IH]; simpl; [done | by rewrite IH]. Qed.

Lemma append_assoc (s t u : string) : (s +:+ t) +:+ u = s +:+ (t +:+ u).
Proof. induction s as [|c s IH]; simpl; [done | by rewrite IH]. Qed.

Lemma push_back_append (s t : string) (c : ascii) :
  push_back (s +:+ t) c = s +:+ push_back t c.
Proof. unfold push_back. apply append_assoc. Qed.

Lemma push_back_cons (s : string) (c d : ascii) :
  push_back (String d s) c = String d (push_back s c).
Proof. reflexivity. Qed.

(** ** The escape expander *)

Lemma unescape_recognized (c : ascii) :
  recognized c = true -> exists d, unescape c = Some d.
Proof. unfold recognized. destruct (unescape c) as [d|]; [eauto | done]. Qed.

Lemma unescape_unrecognized (c : ascii) :
  recognized c = false -> unescape c = None.
Proof. unfold recognized. by destruct (unescape c). Qed.

(** One iteration after a backslash: the switch of the source agrees with
    the escape table. *)
Lemma escaped_step (in_str iter out_str : string) (c : ascii) :
  expand_escapes_from in_str (String c iter) out_str true =
  match unescape c with
  | Some d => expand_escapes_from in_str iter (push_back out_str d) false
  | None => Died (InvalidEscapeSequence c in_str)
  end.
Proof.
  unfold unescape, escape_table. simpl.
  destruct (Ascii.eqb_spec c backslash) as [->|_]; simpl; [done|].
  destruct (Ascii.eqb_spec c apostrophe) as [->|_]; simpl; [done|].
  destruct (Ascii.eqb_spec c dquote) as [->|_]; simpl; [done|].
  destruct (Ascii.eqb c "t"); [done|].
  destruct (Ascii.eqb c "n"); [done|].
  by destruct (Ascii.eqb c "r").
Qed.

Lemma well_escaped_backslash (e : ascii) (rest : string) :
  well_escaped (String backslash (String e rest)) =
  recognized e && well_escaped rest.
Proof. reflexivity. Qed.

Lemma well_escaped_plain (c : ascii) (rest : string) :
  c <> backslash -> well_escaped (String c rest) = well_escaped rest.
Proof.
  intros Hc. simpl. by destruct (Ascii.eqb_spec c backslash).
Qed.

(** A well-escaped prefix is consumed by the loop and leaves its expansion
    in [out_str]; the second half covers a prefix entered just after its
    opening backslash. *)
Lemma expand_prefix_both (in_str pre : string) :
  (forall iter out_str,
      well_escaped pre = true ->
      expand_escapes_from in_str (pre +:+ iter) out_str false =
      expand_escapes_from in_str iter (out_str +:+ expand_spec pre) false)
  /\ (forall iter out_str,
      well_escaped (String backslash pre) = true ->
      expand_escapes_from in_str (pre +:+ iter) out_str true =
      expand_escapes_from in_str iter
        (out_str +:+ expand_spec (String backslash pre)) false).
Proof.
  induction pre as [|a pre [IHplain IHesc]]; split; intros iter out_str Hwf.
  - simpl. by rewrite append_nil_r.
  - discriminate Hwf.
  - change (String a pre +:+ iter) with (String a (pre +:+ iter)).
    destruct (Ascii.eqb_spec a backslash) as [->|Hne].
    + change (expand_escapes_from in_str (String backslash (pre +:+ iter))
                out_str false)
        with (expand_escapes_from in_str (pre +:+ iter) out_str true).
      by apply IHesc.
    + rewrite well_escaped_plain in Hwf by done.
      simpl. destruct (Ascii.eqb_spec a backslash) as [|_]; [done|].
      rewrite IHplain by done. unfold push_back. by rewrite append_assoc.
  - rewrite well_escaped_backslash in Hwf.
    apply andb_prop in Hwf as [Hrec Hrest].
    change (String a pre +:+ iter) with (String a (pre +:+ iter)).
    rewrite escaped_step.
    destruct (unescape_recognized a Hrec) as [d Hd].
    change (expand_spec (String backslash (String a pre)))
      with (String (default a (unescape a)) (expand_spec pre)).
    rewrite Hd. simpl default.
    rewrite IHplain by done. unfold push_back. by rewrite append_assoc.
Qed.

Lemma expand_prefix (in_str pre iter out_str : string) :
  well_escaped pre = true ->
  expand_escapes_from in_str (pre +:+ iter) out_str false =
  expand_escapes_from in_str iter (out_str +:+ expand_spec pre) false.
Proof. apply expand_prefix_both. Qed.

Lemma died_inv_both (in_str iter : string) :
  (forall out_str e,
      expand_escapes_from in_str iter out_str false = Died e ->
      dies_at in_str iter e)
  /\ (forall out_str e,
      expand_escapes_from in_str iter out_str true = Died e ->
      dies_at in_str (String backslash iter) e).
Proof.
  induction iter as [|a iter [IHplain IHesc]]; split; intros out_str e Hdie;
    try discriminate Hdie.
  - simpl in Hdie. destruct (Ascii.eqb_spec a backslash) as [->|Hne].
    + by apply IHesc in Hdie.
    + apply IHplain in Hdie as (pre & c & rest & -> & Hpre & Hc & ->).
      exists (String a pre), c, rest. split_and!; try done.
      by rewrite well_escaped_plain.
  - rewrite escaped_step in Hdie.
    destruct (unescape a) as [d|] eqn:Hd.
    + apply IHplain in Hdie as (pre & c & rest & -> & Hpre & Hc & ->).
      exists (String backslash (String a pre)), c, rest. split_and!; try done.
      rewrite well_escaped_backslash, Hpre. unfold recognized. by rewrite Hd.
    + injection Hdie as <-.
      exists "", a, iter. split_and!; try done.
      unfold recognized. by rewrite Hd.
Qed.

Lemma dies_at_died (in_str whole : string) (e : fatal) :
  dies_at in_str whole e ->
  forall out_str, expand_escapes_from in_str whole out_str false = Died e.
Proof.
  intros (pre & c & rest & -> & Hpre & Hc & ->) out_str.
  rewrite expand_prefix by done.
  change (expand_escapes_from in_str (String backslash (String c rest))
            (out_str +:+ expand_spec pre) false)
    with (expand_escapes_from in_str (String c rest)
            (out_str +:+ expand_spec pre) true).
  rewrite escaped_step. by rewrite (unescape_unrecognized c Hc).
Qed.

Lemma every_backslash_followed_tail (c : ascii) (s : string) :
  every_backslash_followed (String c s) = true ->
  every_backslash_followed s = true.
Proof. simpl. intros H. by apply andb_prop in H as [_ H]. Qed.

Lemma every_backslash_followed_well_escaped_both (s : string) :
  (every_backslash_followed s = true -> well_escaped s = true)
  /\ (forall e rest, s = String e rest ->
        every_backslash_followed s = true -> well_escaped rest = true).
Proof.
  induction s as [|c s [IHhere IHnext]]; split; try done.
  - intros Hpos. pose proof (every_backslash_followed_tail c s Hpos) as Hs.
    simpl in Hpos |- *.
    destruct (Ascii.eqb c backslash); [|by apply IHhere].
    destruct s as [|e rest]; [done|].
    apply andb_prop in Hpos as [-> _]. simpl. by apply (IHnext e rest).
  - intros e rest [= -> ->] Hpos. apply IHhere.
    by apply every_backslash_followed_tail in Hpos.
Qed.

Lemma every_backslash_followed_well_escaped (s : string) :
  every_backslash_followed s = true -> well_escaped s = true.
Proof. apply every_backslash_followed_well_escaped_both. Qed.

(** C8. On an input in which every backslash that opens an escape is
    followed by one of the six recognized characters, the expander returns
    the input with each two-character escape replaced by the character it
    stands for and every other character copied; and it dies with
    InvalidEscapeSequence exactly when such a backslash is followed by
    another character, reporting that character and the whole input. *)
Theorem expand_escapes_recognized_or_fatal (s : string) :
  (well_escaped s = true -> expand_escapes s = Returned (expand_spec s))
  /\ (every_backslash_followed s = true ->
       expand_escapes s = Returned (expand_spec s))
  /\ (forall e, expand_escapes s = Died e <-> dies_at s s e)
  /\ (forall c, recognized c = true <->
        c = backslash \/ c = apostrophe \/ c = dquote
        \/ c = "t"%char \/ c = "n"%char \/ c = "r"%char)
  /\ unescape backslash = Some backslash
  /\ unescape apostrophe = Some apostrophe
  /\ unescape dquote = Some dquote
  /\ unescape "t" = Some tab
  /\ unescape "n" = Some newline
  /\ unescape "r" = Some carriage_return.
Proof.
  assert (Hret : well_escaped s = true ->
                 expand_escapes s = Returned (expand_spec s)).
  { intros Hwf. unfold expand_escapes.
    rewrite <- (append_nil_r s) at 2.
    by rewrite expand_prefix. }
  split_and!; try reflexivity.
  - exact Hret.
  - intros Hpos. by apply Hret, every_backslash_followed_well_escaped.
  - intros e. split.
    + apply died_inv_both.
    + intros Hdie. by apply dies_at_died.
  - intros c. unfold recognized, unescape, escape_table. simpl. split.
    + repeat match goal with
        | |- context [Ascii.eqb c ?k] =>
            destruct (Ascii.eqb_spec c k) as [->|_]; [tauto|]
        end.
      done.
    + by intros [->|[->|[->|[->|[->| ->]]]]].
Qed.

Lemma expand_escapes_recognized_or_fatal_witness :
  expand_escapes (String "a" (String backslash "tb"))
    = Returned (String "a" (String tab "b"))
  /\ expand_escapes (String "x" (String backslash "qy"))
    = Died (InvalidEscapeSequence "q" (String "x" (String backslash "qy"))).
Proof.
  split.
  - apply (proj1 (expand_escapes_recognized_or_fatal
                    (String "a" (String backslash "tb")))).
    reflexivity.
  - apply (proj1 (proj2 (proj2 (expand_escapes_recognized_or_fatal
                                  (String "x" (String backslash "qy")))))).
    exists "x", "q"%char, "y". repeat split; reflexivity.
Defined.

(** A trailing lone backslash is dropped without a diagnostic. *)
Lemma trailing_backslash_dropped (s : string) :
  well_escaped s = true ->
  expand_escapes (s +:+ String backslash "") = Returned (expand_spec s).
Proof.
  intros Hwf. unfold expand_escapes.
  rewrite expand_prefix by done. reflexivity.
Qed.

(** C1. A separator that ends in a lone backslash is not rejected: the loop
    ends with [escape_next] still set, nothing looks at it, and the
    expansion of what came before the backslash is returned. *)
Theorem expand_escapes_trailing_backslash_returns :
  expand_escapes (String "a" (String backslash "")) = Returned "a"
  /\ expand_escapes (String backslash "") = Returned "".
Proof. split; reflexivity. Qed.

(** ** The quoter *)

Lemma quote_for_csv_from_doubled (iter out_str : string) :
  quote_for_csv_from iter out_str = out_str +:+ doubled iter.
Proof.
  revert out_str. induction iter as [|c iter IH]; intros out_str; simpl.
  - by rewrite append_nil_r.
  - rewrite IH. unfold push_back.
    destruct (Ascii.eqb_spec c dquote) as [->|_];
      by rewrite !append_assoc.
Qed.

Lemma minus_guard (s : string) :
  bool_decide (0 < String.length s)
    && bool_decide (String.get 0 s = Some "-"%char)
  = bool_decide (first_char s = Some "-"%char).
Proof.
  destruct s as [|c s]; [done|]. unfold first_char.
  rewrite (bool_decide_eq_true_2 (0 < String.length (String c s))); [done|].
  simpl. lia.
Qed.

(** The quoter in closed form. *)
Lemma quote_for_csv_closed (s : string) :
  quote_for_csv s =
  (if bool_decide (first_char s = Some "-"%char) then "=" else "")
    +:+ String dquote (doubled s +:+ String dquote "").
Proof.
  unfold quote_for_csv. rewrite minus_guard, quote_for_csv_from_doubled.
  unfold push_back. case_bool_decide; simpl; by rewrite ?append_assoc.
Qed.

Lemma last_char_push_back (s : string) (c : ascii) :
  last_char (s +:+ String c "") = Some c.
Proof.
  induction s as [|d s IH]; [done|].
  simpl. rewrite IH. by destruct s.
Qed.

Lemma last_char_cons (s : string) (d c : ascii) :
  last_char s = Some c -> last_char (String d s) = Some c.
Proof. destruct s; [done|]. by intros. Qed.

Lemma count_char_append (c : ascii) (s t : string) :
  count_char c (s +:+ t) = count_char c s + count_char c t.
Proof. induction s as [|d s IH]; simpl; [done|]. rewrite IH. lia. Qed.

Lemma count_char_doubled (s : string) :
  count_char dquote (doubled s) = 2 * count_char dquote s.
Proof.
  induction s as [|c s IH]; [done|]. simpl.
  destruct (Ascii.eqb_spec c dquote) as [->|Hne]; simpl.
  - rewrite IH. lia.
  - destruct (Ascii.eqb_spec c dquote); [done|]. rewrite IH. lia.
Qed.

Lemma collapse_doubled (s : string) : collapse (doubled s) = s.
Proof.
  induction s as [|c s IH]; [done|]. simpl.
  destruct (Ascii.eqb_spec c dquote) as [->|Hne]; simpl.
  - by rewrite IH.
  - destruct (Ascii.eqb_spec c dquote); [done|]. by rewrite IH.
Qed.

(** C3, as the code has it. The quoted text always ends with a double quote
    and holds twice the double quotes of the value plus two; it starts with
    a double quote exactly when the value does not start with a minus
    sign. *)
Theorem quote_for_csv_quotes (s : string) :
  last_char (quote_for_csv s) = Some dquote
  /\ count_char dquote (quote_for_csv s) = 2 * count_char dquote s + 2
  /\ (first_char (quote_for_csv s) = Some dquote
        <-> first_char s <> Some "-"%char)
  /\ (first_char s = Some "-"%char ->
       first_char (quote_for_csv s) = Some "="%char
       /\ String.get 1 (quote_for_csv s) = Some dquote).
Proof.
  rewrite quote_for_csv_closed. split_and!.
  - case_bool_decide; simpl; repeat apply last_char_cons;
      apply last_char_push_back.
  - rewrite count_char_append. simpl. rewrite count_char_append. simpl.
    rewrite count_char_doubled. case_bool_decide; simpl; lia.
  - case_bool_decide as Hminus; simpl; unfold first_char; simpl.
    + split; [discriminate | done].
    + done.
  - intros Hminus. by rewrite bool_decide_eq_true_2.
Qed.

Lemma quote_for_csv_quotes_witness :
  first_char (quote_for_csv "-1") = Some "="%char
  /\ String.get 1 (quote_for_csv "-1") = Some dquote.
Proof.
  apply (proj2 (proj2 (proj2 (quote_for_csv_quotes "-1")))). reflexivity.
Defined.

(** C3 as worded fails on a value that starts with a minus sign: the quoted
    text then starts with an equals sign. *)
Lemma quoted_both_ends_minus_one : ~ quoted_both_ends "-1".
Proof. intros [Hfirst _]. vm_compute in Hfirst. discriminate Hfirst. Qed.

(** C6. For a value that starts with a minus sign the quoted text starts
    with an equals sign and a double quote; between that double quote and
    the closing one stands the value with each double quote written twice
    and every other character as it was, so collapsing the doubled quotes
    gives the value back. *)
Theorem quote_for_csv_leading_minus (s : string)
    (Hminus : first_char s = Some "-"%char) :
  first_char (quote_for_csv s) = Some "="%char
  /\ String.get 1 (quote_for_csv s) = Some dquote
  /\ quote_for_csv s = String "=" (String dquote (doubled s +:+ String dquote ""))
  /\ collapse (doubled s) = s.
Proof.
  rewrite quote_for_csv_closed, bool_decide_eq_true_2 by done.
  split_and!; try reflexivity. apply collapse_doubled.
Qed.

Lemma quote_for_csv_leading_minus_witness :
  first_char "-5" = Some "-"%char
  /\ quote_for_csv "-5"
     = String "=" (String dquote (doubled "-5" +:+ String dquote "")).
Proof.
  split; [reflexivity|].
  apply (quote_for_csv_leading_minus "-5"). reflexivity.
Defined.

(** ** The table filter *)

Lemma size_pos_nonempty (X : gset string) : 0 < size X <-> X <> ∅.
Proof.
  split.
  - intros Hpos ->. rewrite size_empty in Hpos. lia.
  - intros Hne. destruct (decide (size X = 0)) as [Hzero|]; [|lia].
    apply size_empty_iff, leibniz_equiv in Hzero. done.
Qed.

Lemma should_suppress_true (st : LocalState) (name : string) :
  should_suppress st name = true <->
  (included_tables st <> ∅ /\ name ∉ included_tables st)
  \/ name ∈ excluded_tables st.
Proof.
  unfold should_suppress.
  rewrite orb_true_iff, andb_true_iff, !bool_decide_eq_true.
  by rewrite size_pos_nonempty.
Qed.

(** Once the filter has said yes, [begin_any_table] returns at once. *)
Lemma begin_any_table_filtered (st : LocalState) (name : string) :
  should_suppress st name = true ->
  begin_any_table st name = set_suppress_table true st.
Proof. intros Hf. unfold begin_any_table. simpl. by rewrite Hf. Qed.

(** C4. The filter suppresses a table exactly when the include-set is
    non-empty and lacks the name, or the exclude-set holds the name; with
    both sets empty nothing is suppressed. A table the filter suppresses
    gets no output, and outside only-names mode the flag kept for the table
    is the filter's answer. *)
Theorem table_filter_decision (st : LocalState) (name : string) :
  (should_suppress st name = true <->
     (included_tables st <> ∅ /\ name ∉ included_tables st)
     \/ name ∈ excluded_tables st)
  /\ (included_tables st = ∅ -> excluded_tables st = ∅ ->
       should_suppress st name = false)
  /\ (should_suppress st name = true ->
       begin_any_table st name = set_suppress_table true st)
  /\ (only_names st = false ->
       suppress_table (begin_any_table st name) = should_suppress st name)
  /\ (included_tables st <> ∅ -> excluded_tables st = ∅ ->
       (should_suppress st name = false <-> name ∈ included_tables st))
  /\ (excluded_tables st <> ∅ -> included_tables st = ∅ ->
       (should_suppress st name = false <-> name ∉ excluded_tables st)).
Proof.
  split_and!.
  - apply should_suppress_true.
  - intros Hin Hex. apply not_true_is_false.
    rewrite should_suppress_true, Hin, Hex.
    intros [[Hne _]|Hmem]; [done | by apply not_elem_of_empty in Hmem].
  - apply begin_any_table_filtered.
  - intros Hall. unfold begin_any_table. simpl.
    destruct (should_suppress st name); [done|]. simpl.
    rewrite Hall. by destruct (0 <? tablenum st)%N.
  - intros Hin Hex.
    rewrite <- not_true_iff_false, should_suppress_true, Hex. split.
    + intros Hno. destruct (decide (name ∈ included_tables st)); [done|].
      destruct Hno. by left.
    + intros Hmem [[_ Hout]|Hmem']; [done|].
      by apply not_elem_of_empty in Hmem'.
  - intros Hex Hin.
    rewrite <- not_true_iff_false, should_suppress_true, Hin. split.
    + intros Hno Hmem. destruct Hno. by right.
    + intros Hout [[Hne _]|Hmem]; done.
Qed.

Lemma table_filter_decision_witness :
  should_suppress (include_table "T1" initial_state) "T2" = true
  /\ should_suppress initial_state "T2" = false.
Proof.
  split.
  - apply (proj1 (table_filter_decision (include_table "T1" initial_state)
                    "T2")).
    left. split; apply (bool_decide_unpack _); vm_compute; exact I.
  - apply (proj1 (proj2 (table_filter_decision initial_state "T2")));
      reflexivity.
Defined.

(** ** Values and rows *)

Lemma uint64_text_decimal (value : N) :
  decimal_value (uint64_text value) = Some value.
Proof.
  unfold decimal_value, uint64_text.
  rewrite NilZero.usu.
  - simpl. by rewrite Unsigned.of_to.
  - rewrite <- (Unsigned.of_to value), Unsigned.to_of.
    apply DecimalFacts.unorm_nonnil.
Qed.

(** What the three steps shared by the value writers amount to. *)
Lemma cell_steps (st : LocalState) (text : string) :
  (let st1 := if (0 <? colnum st)%N then write (colsep st) st else st in
   let st2 := write text st1 in
   set_colnum (size_t_wrap (colnum st2 + 1)) st2)
  = cell_written st text.
Proof.
  unfold cell_written, write, set_colnum.
  destruct (0 <? colnum st)%N; simpl; by rewrite ?append_assoc.
Qed.

Lemma size_t_wrap_small (n : N) : (n < 2 ^ 64)%N -> size_t_wrap n = n.
Proof. intros Hn. unfold size_t_wrap. by apply N.mod_small. Qed.

(** C5. In a table that is shown, each value callback writes the column
    separator exactly when [colnum] is positive, then the value in the form
    of its type (the decimal digits that denote it, FALSE for the bool 0
    and TRUE for every other bool, the quoted string or header name), and
    adds one to [colnum]. *)
Theorem value_callbacks_emit_cell (st : LocalState)
    (Hshown : suppress_table st = false) :
  (forall value,
      write_uint64_value st value = cell_written st (uint64_text value))
  /\ (forall value,
      write_bool_value st value = cell_written st (bool_text value))
  /\ (forall value,
      write_string_value st value = cell_written st (quote_for_csv value))
  /\ (forall colname,
      any_column_header st colname = cell_written st (quote_for_csv colname))
  /\ (forall text,
      colnum st = 0%N ->
      outfile (cell_written st text) = outfile st +:+ text)
  /\ (forall text,
      (0 < colnum st)%N ->
      outfile (cell_written st text) = outfile st +:+ colsep st +:+ text)
  /\ (forall text,
      (colnum st + 1 < 2 ^ 64)%N ->
      colnum (cell_written st text) = (colnum st + 1)%N)
  /\ (forall value, decimal_value (uint64_text value) = Some value)
  /\ (forall value, value = 0%N -> bool_text value = "FALSE")
  /\ (forall value, value <> 0%N -> bool_text value = "TRUE").
Proof.
  split_and!.
  - intros value. unfold write_uint64_value. rewrite Hshown.
    apply cell_steps.
  - intros value. unfold write_bool_value. rewrite Hshown.
    apply cell_steps.
  - intros value. unfold write_string_value. rewrite Hshown.
    apply cell_steps.
  - intros colname. unfold any_column_header. rewrite Hshown.
    apply cell_steps.
  - intros text Hzero. simpl. by rewrite Hzero.
  - intros text Hpos. simpl.
    by rewrite (proj2 (N.ltb_lt 0 (colnum st)) Hpos).
  - intros text Hroom. simpl. by apply size_t_wrap_small.
  - apply uint64_text_decimal.
  - by intros value ->.
  - intros value Hnz. unfold bool_text. by destruct (N.eqb_spec value 0).
Qed.

Lemma value_callbacks_emit_cell_witness :
  outfile (write_uint64_value
             (write_string_value (begin_row initial_state) "x") 5)
  = String dquote (String "x" (String dquote ",5"))
  /\ outfile (write_bool_value
                (write_string_value (begin_row initial_state) "x") 1)
     = String dquote (String "x" (String dquote ",TRUE")).
Proof.
  pose proof (value_callbacks_emit_cell
                (write_string_value (begin_row initial_state) "x") eq_refl)
    as (Huint & Hbool & _ & _ & _ & _ & _ & _ & _ & Htrue).
  split.
  - rewrite (Huint 5%N). reflexivity.
  - rewrite (Hbool 1%N), (Htrue 1%N) by discriminate. reflexivity.
Defined.

(** C9. In a table that is shown, a bool value is written as TRUE for every
    nonzero byte and as FALSE exactly for the byte 0. *)
Theorem write_bool_value_nonzero_true (st : LocalState) (value : N)
    (Hshown : suppress_table st = false) :
  write_bool_value st value = cell_written st (bool_text value)
  /\ (value <> 0%N -> bool_text value = "TRUE")
  /\ (bool_text value = "FALSE" <-> value = 0%N).
Proof.
  split_and!.
  - unfold write_bool_value. rewrite Hshown. apply cell_steps.
  - intros Hnz. unfold bool_text.
    by destruct (N.eqb_spec value 0).
  - unfold bool_text. destruct (N.eqb_spec value 0); split; try done.
Qed.

Lemma write_bool_value_nonzero_true_witness :
  outfile (write_bool_value initial_state 2) = "TRUE"
  /\ outfile (write_bool_value initial_state 0) = "FALSE".
Proof.
  split.
  - rewrite (proj1 (write_bool_value_nonzero_true initial_state 2 eq_refl)).
    reflexivity.
  - rewrite (proj1 (write_bool_value_nonzero_true initial_state 0 eq_refl)).
    reflexivity.
Defined.

(** ** Suppressed tables *)

Lemma callback_suppressed (st : LocalState) (ev : event) :
  suppress_table st = true -> table_name ev = None -> callback st ev = st.
Proof.
  intros Hsup Hev.
  destruct ev; try discriminate Hev; simpl;
    unfold begin_row, any_column_header, end_row, write_uint64_value,
      write_string_value, write_bool_value;
    by rewrite Hsup.
Qed.

(** C10. While the current table is suppressed, the row-begin,
    column-header, value and row-end callbacks return the state they were
    given: nothing is written and no field changes. *)
Theorem suppressed_callbacks_change_nothing (st : LocalState)
    (Hsup : suppress_table st = true) :
  begin_row st = st
  /\ (forall colname, any_column_header st colname = st)
  /\ (forall value, write_uint64_value st value = st)
  /\ (forall value, write_string_value st value = st)
  /\ (forall value, write_bool_value st value = st)
  /\ end_row st = st
  /\ (forall ev, table_name ev = None -> callback st ev = st).
Proof.
  split_and!; try intros ?;
    unfold begin_row, any_column_header, end_row, write_uint64_value,
      write_string_value, write_bool_value;
    rewrite ?Hsup; try done.
  by apply callback_suppressed.
Qed.

Lemma suppressed_callbacks_change_nothing_witness :
  write_uint64_value (begin_any_table (exclude_table "T1" initial_state) "T1")
    5
  = begin_any_table (exclude_table "T1" initial_state) "T1".
Proof.
  apply (suppressed_callbacks_change_nothing
           (begin_any_table (exclude_table "T1" initial_state) "T1")).
  vm_compute. reflexivity.
Defined.

(** ** Rows *)

Lemma process_app (st : LocalState) (evs evs' : list event) :
  bf_process_byfl_file st (evs ++ evs')
  = bf_process_byfl_file (bf_process_byfl_file st evs) evs'.
Proof. apply fold_left_app. Qed.

Lemma begin_row_suppress_table (st : LocalState) :
  suppress_table (begin_row st) = suppress_table st.
Proof. unfold begin_row. by destruct (suppress_table st) eqn:Hsup. Qed.

Lemma begin_row_shown (st : LocalState) :
  suppress_table st = false -> begin_row st = set_colnum 0 st.
Proof. intros Hshown. unfold begin_row. by rewrite Hshown. Qed.

Lemma callback_value (st : LocalState) (ev : event) (text : string) :
  suppress_table st = false -> value_text ev = Some text ->
  callback st ev = cell_written st text.
Proof.
  intros Hshown Hev.
  destruct ev; try discriminate Hev; injection Hev as <-; simpl;
    unfold any_column_header, write_uint64_value, write_string_value,
      write_bool_value;
    rewrite Hshown; apply cell_steps.
Qed.

(** C7. Whatever came before, right after the row-begin call of a header or
    data row of a table that is shown [colnum] is 0; so the first value of
    the row is written without a separator and leaves [colnum] at 1. *)
Theorem colnum_zero_at_row_begin (st : LocalState) (evs : list event)
    (ev : event)
    (Hbegin : is_row_begin ev = true)
    (Hshown :
       suppress_table (bf_process_byfl_file st (evs ++ [ev])) = false) :
  colnum (bf_process_byfl_file st (evs ++ [ev])) = 0%N
  /\ forall next text,
       value_text next = Some text ->
       outfile (bf_process_byfl_file st (evs ++ [ev; next]))
       = outfile (bf_process_byfl_file st (evs ++ [ev])) +:+ text
       /\ colnum (bf_process_byfl_file st (evs ++ [ev; next])) = 1%N.
Proof.
  assert (Hrow : callback (bf_process_byfl_file st evs) ev
                 = begin_row (bf_process_byfl_file st evs))
    by (by destruct ev).
  rewrite process_app in Hshown. simpl in Hshown.
  rewrite Hrow, begin_row_suppress_table in Hshown.
  assert (Hst : bf_process_byfl_file st (evs ++ [ev])
                = set_colnum 0 (bf_process_byfl_file st evs)).
  { rewrite process_app. simpl. rewrite Hrow. by apply begin_row_shown. }
  split.
  - by rewrite Hst.
  - intros next text Hnext.
    change [ev; next] with ([ev] ++ [next]).
    rewrite app_assoc, (process_app _ (evs ++ [ev])), Hst. simpl.
    rewrite (callback_value _ next text); [by simpl | done | done].
Qed.

Lemma colnum_zero_at_row_begin_witness :
  colnum (bf_process_byfl_file initial_state
            ([ table_begin_basic "T"; row_begin; data_uint64 1;
               data_uint64 2; data_uint64 3; row_end ] ++ [row_begin]))
  = 0%N.
Proof.
  apply (colnum_zero_at_row_begin initial_state
           [ table_begin_basic "T"; row_begin; data_uint64 1;
             data_uint64 2; data_uint64 3; row_end ] row_begin);
    reflexivity.
Defined.

(** ** Only-names mode *)

Lemma shown_tables_cons_table (st : LocalState) (ev : event)
    (evs : list event) (name : string) :
  table_name ev = Some name ->
  shown_tables st (ev :: evs)
  = if should_suppress st name then shown_tables st evs
    else name :: shown_tables st evs.
Proof.
  intros Hev. unfold shown_tables. simpl. rewrite Hev. simpl.
  by destruct (should_suppress st name).
Qed.

Lemma shown_tables_cons_other (st : LocalState) (ev : event)
    (evs : list event) :
  table_name ev = None -> shown_tables st (ev :: evs) = shown_tables st evs.
Proof. intros Hev. unfold shown_tables. simpl. by rewrite Hev. Qed.

Lemma shown_tables_same_sets (st st' : LocalState) (evs : list event) :
  included_tables st' = included_tables st ->
  excluded_tables st' = excluded_tables st ->
  shown_tables st' evs = shown_tables st evs.
Proof.
  intros Hin Hex. unfold shown_tables, should_suppress.
  by rewrite Hin, Hex.
Qed.

Lemma callback_table (st : LocalState) (ev : event) (name : string) :
  table_name ev = Some name -> callback st ev = begin_any_table st name.
Proof. intros Hev. by destruct ev; simplify_eq/=. Qed.

(** A table-begin call in only-names mode: the name line if the filter lets
    the table through, and the table left suppressed either way. *)
Lemma begin_any_table_only_names (st : LocalState) (name : string) :
  only_names st = true ->
  let st' := begin_any_table st name in
  outfile st'
  = outfile st +:+ (if should_suppress st name then "" else name_line name)
  /\ suppress_table st' = true
  /\ only_names st' = true
  /\ included_tables st' = included_tables st
  /\ excluded_tables st' = excluded_tables st.
Proof.
  intros Hnames. unfold begin_any_table. simpl.
  destruct (should_suppress st name); simpl.
  - by rewrite append_nil_r.
  - rewrite Hnames. simpl. unfold name_line. by rewrite append_assoc.
Qed.

Lemma only_names_suppressed (evs : list event) : forall st : LocalState,
  only_names st = true -> suppress_table st = true ->
  outfile (bf_process_byfl_file st evs)
  = outfile st +:+ name_lines (shown_tables st evs).
Proof.
  induction evs as [|ev evs IH]; intros st Hnames Hsup.
  - simpl. by rewrite append_nil_r.
  - change (bf_process_byfl_file st (ev :: evs))
      with (bf_process_byfl_file (callback st ev) evs).
    destruct (table_name ev) as [name|] eqn:Hev.
    + rewrite (callback_table st ev name Hev).
      destruct (begin_any_table_only_names st name Hnames)
        as (Hout & Hsup' & Hnames' & Hin & Hex).
      rewrite IH by done.
      rewrite Hout, (shown_tables_same_sets st _ evs Hin Hex).
      rewrite (shown_tables_cons_table st ev evs name Hev).
      destruct (should_suppress st name); simpl.
      * by rewrite append_nil_r.
      * by rewrite append_assoc.
    + rewrite (callback_suppressed st ev Hsup Hev), IH by done.
      by rewrite (shown_tables_cons_other st ev evs Hev).
Qed.

(** C2, as the code has it. In only-names mode, for every stream that
    starts with a table, the output is exactly one quoted name line for each
    table the filter lets through, the lines following one another with no
    blank line between them and no header or data row. *)
Theorem only_names_output (st : LocalState) (evs : list event)
    (Hnames : only_names st = true)
    (Hled : table_led evs = true) :
  outfile (bf_process_byfl_file st evs)
  = outfile st +:+ name_lines (shown_tables st evs).
Proof.
  destruct evs as [|ev evs].
  - simpl. by rewrite append_nil_r.
  - simpl in Hled. destruct (table_name ev) as [name|] eqn:Hev; [|done].
    change (bf_process_byfl_file st (ev :: evs))
      with (bf_process_byfl_file (callback st ev) evs).
    rewrite (callback_table st ev name Hev).
    destruct (begin_any_table_only_names st name Hnames)
      as (Hout & Hsup' & Hnames' & Hin & Hex).
    rewrite only_names_suppressed by done.
    rewrite Hout, (shown_tables_same_sets st _ evs Hin Hex).
    rewrite (shown_tables_cons_table st ev evs name Hev).
    destruct (should_suppress st name); simpl.
    + by rewrite append_nil_r.
    + by rewrite append_assoc.
Qed.

Lemma only_names_output_witness :
  outfile (bf_process_byfl_file (set_only_names true initial_state)
             two_tables)
  = name_line "T1" +:+ name_line "T2".
Proof.
  rewrite (only_names_output (set_only_names true initial_state) two_tables
             eq_refl eq_refl).
  reflexivity.
Defined.

(** C2 as worded fails on two tables: no blank line comes between their
    name lines. *)
Lemma names_blank_separated_two_tables :
  ~ names_blank_separated (set_only_names true initial_state) two_tables.
Proof.
  unfold names_blank_separated. vm_compute. discriminate.
Qed.

(** ** Worked examples *)

(** The end-to-end example: default separator, no filter. *)
Example table_T1_rendered :
  outfile (bf_process_byfl_file initial_state table_T1)
  = dq +:+ "T1" +:+ dq +:+ nl
    +:+ dq +:+ "A" +:+ dq +:+ "," +:+ dq +:+ "B" +:+ dq +:+ nl
    +:+ "5," +:+ dq +:+ "x" +:+ dq +:+ nl.
Proof. reflexivity. Qed.

(** The same stream with T1 excluded: nothing is written. *)
Example table_T1_excluded :
  outfile (bf_process_byfl_file (exclude_table "T1" initial_state) table_T1)
  = "".
Proof. reflexivity. Qed.

(** Two tables in full mode: a blank line between the blocks. *)
Example two_tables_rendered :
  outfile (bf_process_byfl_file initial_state two_tables)
  = dq +:+ "T1" +:+ dq +:+ nl +:+ dq +:+ "A" +:+ dq +:+ nl +:+ "5" +:+ nl
    +:+ nl
    +:+ dq +:+ "T2" +:+ dq +:+ nl +:+ dq +:+ "B" +:+ dq +:+ nl
    +:+ dq +:+ "x" +:+ dq +:+ nl.
Proof. reflexivity. Qed.

(** Two tables in only-names mode: the two name lines and nothing else. *)
Example two_tables_listed :
  outfile (bf_process_byfl_file (set_only_names true initial_state)
             two_tables)
  = dq +:+ "T1" +:+ dq +:+ nl +:+ dq +:+ "T2" +:+ dq +:+ nl.
Proof. reflexivity. Qed.

(** A backslash that is itself escaped opens no escape: the q after it is
    an ordinary character. *)
Example escaped_backslash_then_q :
  expand_escapes (String backslash (String backslash "q"))
  = Returned (String backslash "q").
Proof. reflexivity. Qed.

(** A double quote inside a value is written twice. *)
Example quote_for_csv_inner_quote :
  quote_for_csv ("a" +:+ dq +:+ "b")
  = dq +:+ "a" +:+ dq +:+ dq +:+ "b" +:+ dq.
Proof. reflexivity. Qed.

(** The diagnostic for the separator x, backslash, q, y. *)
Example fatal_message_example :
  fatal_message "bfbin2text"
    (InvalidEscapeSequence "q" (String "x" (String backslash "qy")))
  = "bfbin2text: Unrecognized escape sequence " +:+ dq
    +:+ String backslash "q" +:+ dq +:+ " in " +:+ dq
    +:+ String "x" (String backslash "qy") +:+ dq +:+ nl.
Proof. reflexivity. Qed.

(** ** The constructor *)

Ltac option_cases c :=
  destruct (Ascii.eqb_spec c "o") as [->|?];
  [|destruct (Ascii.eqb_spec c "c") as [->|?];
    [|destruct (Ascii.eqb_spec c "i") as [->|?];
      [|destruct (Ascii.eqb_spec c "e") as [->|?];
        [|destruct (Ascii.eqb_spec c "l") as [->|?];
          [|destruct (Ascii.eqb_spec c "000") as [->|?]]]]]].

Lemma optargs_cons (c d : ascii) (a : string) (opts : list (ascii * string)) :
  optargs c ((d, a) :: opts)
  = if Ascii.eqb d c then a :: optargs c opts else optargs c opts.
Proof. unfold optargs. simpl. by destruct (Ascii.eqb d c). Qed.

Lemma default_last_cons (d a : string) (l : list string) :
  default d (last (a :: l)) = default a (last l).
Proof. rewrite last_cons. by destruct (last l). Qed.

Lemma l_option_cons (c : ascii) (l : list ascii) :
  Ascii.eqb c "l" = false ->
  bool_decide ("l"%char ∈ c :: l) = bool_decide ("l"%char ∈ l).
Proof.
  intros Hc. apply bool_decide_ext. rewrite elem_of_cons.
  split; [|by right].
  intros [<-|Hin]; [|done]. by rewrite Ascii.eqb_refl in Hc.
Qed.

(** What the option loop leaves in the state when it runs to the end. *)
Lemma process_options_ready (opts : list (ascii * string)) :
  forall st st' : LocalState,
  process_options st opts = Ready st' ->
  included_tables st' = list_to_set (optargs "i" opts) ∪ included_tables st
  /\ excluded_tables st' = list_to_set (optargs "e" opts) ∪ excluded_tables st
  /\ only_names st'
     = only_names st || bool_decide ("l"%char ∈ map fst opts)
  /\ outfilename st' = default (outfilename st) (last (optargs "o" opts))
  /\ match last (optargs "c" opts) with
     | Some a => expand_escapes a = Returned (colsep st')
     | None => colsep st' = colsep st
     end
  /\ infilename st' = infilename st
  /\ outfile st' = outfile st
  /\ tablenum st' = tablenum st
  /\ colnum st' = colnum st
  /\ suppress_table st' = suppress_table st.
Proof.
  induction opts as [|[c a] opts IH]; intros st st' Hrun.
  - injection Hrun as <-. simpl. split_and!; try done.
    + by rewrite (left_id_L ∅ (∪)).
    + by rewrite (left_id_L ∅ (∪)).
    + by rewrite orb_false_r.
  - simpl in Hrun. rewrite !optargs_cons. simpl map.
    option_cases c; simpl in Hrun |- *; try discriminate Hrun.
    + apply IH in Hrun as (Hi & He & Hl & Ho & Hc & ? & ? & ? & ? & ?).
      simpl in *.
      split_and!; try done.
      * by rewrite Hl, l_option_cons.
      * by rewrite default_last_cons.
    + destruct (expand_escapes a) as [sep|e] eqn:Hsep; [|discriminate Hrun].
      apply IH in Hrun as (Hi & He & Hl & Ho & Hc & ? & ? & ? & ? & ?).
      simpl in *.
      split_and!; try done.
      * by rewrite Hl, l_option_cons.
      * rewrite last_cons. destruct (last (optargs "c" opts)); [done|].
        by rewrite Hc.
    + apply IH in Hrun as (Hi & He & Hl & Ho & Hc & ? & ? & ? & ? & ?).
      simpl in *.
      split_and!; try done.
      * rewrite Hi.
        rewrite !(assoc_L (∪)). f_equal. apply (comm_L (∪)).
      * by rewrite Hl, l_option_cons.
    + apply IH in Hrun as (Hi & He & Hl & Ho & Hc & ? & ? & ? & ? & ?).
      simpl in *.
      split_and!; try done.
      * rewrite He.
        rewrite !(assoc_L (∪)). f_equal. apply (comm_L (∪)).
      * by rewrite Hl, l_option_cons.
    + apply IH in Hrun as (Hi & He & Hl & Ho & Hc & ? & ? & ? & ? & ?).
      simpl in *.
      split_and!; try done.
      rewrite Hl. symmetry. apply orb_true_r.
Qed.

(** The loop runs to the end only over options it knows, and only if every
    separator given expands. *)
Lemma process_options_ready_all (opts : list (ascii * string)) :
  forall st st' : LocalState,
  process_options st opts = Ready st' ->
  Forall (fun opt =>
            known_option (fst opt) = true
            /\ (fst opt = "c"%char ->
                exists sep, expand_escapes (snd opt) = Returned sep)) opts.
Proof.
  induction opts as [|[c a] opts IH]; intros st st' Hrun; [constructor|].
  simpl in Hrun.
  option_cases c; simpl in Hrun; try discriminate Hrun.
  - constructor; [|by eapply IH]. split; [done|]. discriminate.
  - destruct (expand_escapes a) as [sep|e] eqn:Hsep; [|discriminate Hrun].
    constructor; [|by eapply IH]. split; [done|]. simpl. eauto.
  - constructor; [|by eapply IH]. split; [done|]. discriminate.
  - constructor; [|by eapply IH]. split; [done|]. discriminate.
  - constructor; [|by eapply IH]. split; [done|]. discriminate.
Qed.

Lemma ctor_ready_inv (can_open : string -> bool)
    (opts : list (ascii * string)) (operands : list string)
    (st : LocalState) :
  LocalState_ctor can_open opts operands = Ready st ->
  exists st0 name,
    process_options initial_state opts = Ready st0
    /\ operands = [name]
    /\ st = set_infilename name st0
    /\ ~ (0 < size (excluded_tables st0) /\ 0 < size (included_tables st0))
    /\ (outfilename st0 <> "" -> can_open (outfilename st0) = true).
Proof.
  unfold LocalState_ctor.
  destruct (process_options initial_state opts) as [st0|r]; [|done].
  destruct operands as [|name [|? ?]]; try done. simpl.
  case_bool_decide as Hex; case_bool_decide as Hin; simpl; try done;
    (case_bool_decide as Hout;
     [destruct (can_open (outfilename st0)) eqn:Hopen; [|done]|];
     intros [= <-]; exists st0, name; split_and!; try done;
     by intros [? ?]).
Qed.

Lemma process_options_exit (opts : list (ascii * string)) :
  forall (st : LocalState) (r : exit_reason),
  process_options st opts = Exit r ->
  (exists e, r = BadEscape e) \/ r = InternalError \/ r = UsageError.
Proof.
  induction opts as [|[c a] opts IH]; intros st r Hrun; [done|].
  simpl in Hrun.
  option_cases c; simpl in Hrun; try (by eapply IH).
  - destruct (expand_escapes a) as [sep|e]; [by eapply IH|].
    injection Hrun as <-. eauto.
  - injection Hrun as <-. auto.
  - injection Hrun as <-. auto.
Qed.

Lemma elem_of_optargs (c : ascii) (a : string)
    (opts : list (ascii * string)) :
  (c, a) ∈ opts -> a ∈ optargs c opts.
Proof.
  induction opts as [|[d b] opts IH]; intros Hin.
  - by apply elem_of_nil in Hin.
  - rewrite optargs_cons. apply elem_of_cons in Hin as [[= <- <-]|Hin].
    + rewrite Ascii.eqb_refl. apply elem_of_cons. by left.
    + destruct (Ascii.eqb d c); [apply elem_of_cons; right|]; by apply IH.
Qed.

Lemma size_pos_elem (X : gset string) (a : string) : a ∈ X -> 0 < size X.
Proof.
  intros Hin. apply size_pos_nonempty. intros ->.
  by apply not_elem_of_empty in Hin.
Qed.

(** X1. A state the constructor returns is ready for rendering and
    consistent: the include-set and the exclude-set are not both non-empty,
    no table and no column has been counted, nothing is suppressed, nothing
    has been written, exactly one input file was named and it is the one
    stored, and an output file that was named could be opened. *)
Theorem ctor_ready_state (can_open : string -> bool)
    (opts : list (ascii * string)) (operands : list string)
    (st : LocalState)
    (Hready : LocalState_ctor can_open opts operands = Ready st) :
  (included_tables st = ∅ \/ excluded_tables st = ∅)
  /\ tablenum st = 0%N /\ colnum st = 0%N
  /\ suppress_table st = false
  /\ outfile st = ""
  /\ operands = [infilename st]
  /\ (outfilename st <> "" -> can_open (outfilename st) = true).
Proof.
  apply ctor_ready_inv in Hready
    as (st0 & name & Hopts & -> & -> & Hsets & Hopen).
  apply process_options_ready in Hopts
    as (_ & _ & _ & _ & _ & _ & Hout & Htab & Hcol & Hsup).
  simpl. split_and!; try done.
  destruct (decide (size (included_tables st0) = 0)) as [Hzero|Hpos].
  - left. by apply size_empty_iff, leibniz_equiv in Hzero.
  - right. destruct (decide (size (excluded_tables st0) = 0)) as [Hzero|Hpos'].
    + by apply size_empty_iff, leibniz_equiv in Hzero.
    + destruct Hsets. lia.
Qed.

Lemma ctor_ready_state_witness :
  tablenum (set_infilename "in.byfl"
              (exclude_table "T1" (set_only_names true initial_state)))
  = 0%N.
Proof.
  apply (ctor_ready_state (fun _ => false)
           [("l"%char, ""); ("e"%char, "T1")] ["in.byfl"]
           (set_infilename "in.byfl"
              (exclude_table "T1" (set_only_names true initial_state)))).
  vm_compute. reflexivity.
Defined.

(** X2. A state the constructor returns holds the command line: the
    include-set and the exclude-set are the arguments of all [-i] and all
    [-e] options, only-names mode is on exactly when [-l] was given, the
    output name is the argument of the last [-o] (empty without one), and
    the separator is the expansion of the argument of the last [-c] (of the
    comma without one). *)
Theorem ctor_ready_options (can_open : string -> bool)
    (opts : list (ascii * string)) (operands : list string)
    (st : LocalState)
    (Hready : LocalState_ctor can_open opts operands = Ready st) :
  included_tables st = list_to_set (optargs "i" opts)
  /\ excluded_tables st = list_to_set (optargs "e" opts)
  /\ (only_names st = true <-> "l"%char ∈ map fst opts)
  /\ outfilename st = default "" (last (optargs "o" opts))
  /\ expand_escapes (default "," (last (optargs "c" opts)))
     = Returned (colsep st).
Proof.
  apply ctor_ready_inv in Hready as (st0 & name & Hopts & -> & -> & _ & _).
  apply process_options_ready in Hopts
    as (Hi & He & Hl & Ho & Hc & _). simpl in *.
  split_and!.
  - by rewrite Hi, (right_id_L ∅ (∪)).
  - by rewrite He, (right_id_L ∅ (∪)).
  - by rewrite Hl, bool_decide_eq_true.
  - done.
  - destruct (last (optargs "c" opts)); simpl; [done|]. by rewrite Hc.
Qed.

Lemma ctor_ready_options_witness :
  expand_escapes (String backslash "t")
  = Returned (colsep (set_infilename "in.byfl"
                        (set_colsep (String tab "") initial_state))).
Proof.
  apply (ctor_ready_options (fun _ => false)
           [("c"%char, ";"); ("c"%char, String backslash "t")] ["in.byfl"]
           (set_infilename "in.byfl"
              (set_colsep (String tab "") initial_state))).
  vm_compute. reflexivity.
Defined.

(** X3. The constructor returns only if every value [getopt_long] gave is
    one of the five options of the program and the argument of every [-c],
    not only of the last one, expands without error. *)
Theorem ctor_ready_known_options (can_open : string -> bool)
    (opts : list (ascii * string)) (operands : list string)
    (st : LocalState)
    (Hready : LocalState_ctor can_open opts operands = Ready st) :
  Forall (fun opt =>
            known_option (fst opt) = true
            /\ (fst opt = "c"%char ->
                exists sep, expand_escapes (snd opt) = Returned sep)) opts.
Proof.
  apply ctor_ready_inv in Hready as (st0 & name & Hopts & _).
  by eapply process_options_ready_all.
Qed.

Lemma ctor_ready_known_options_witness :
  Forall (fun opt =>
            known_option (fst opt) = true
            /\ (fst opt = "c"%char ->
                exists sep, expand_escapes (snd opt) = Returned sep))
    [("c"%char, ";"); ("l"%char, "")].
Proof.
  apply (ctor_ready_known_options (fun _ => false)
           [("c"%char, ";"); ("l"%char, "")] ["in.byfl"]
           (set_infilename "in.byfl"
              (set_only_names true (set_colsep ";" initial_state)))).
  vm_compute. reflexivity.
Defined.

(** X4. A command line with both an [-i] and an [-e] option never gets
    through the constructor, whatever else it holds, and the process ends
    before the output file is opened. *)
Theorem ctor_include_and_exclude_exits (can_open : string -> bool)
    (opts : list (ascii * string)) (operands : list string)
    (a b : string)
    (Hinclude : ("i"%char, a) ∈ opts)
    (Hexclude : ("e"%char, b) ∈ opts) :
  exists r, LocalState_ctor can_open opts operands = Exit r
            /\ forall name, r <> OpenFailed name.
Proof.
  unfold LocalState_ctor.
  destruct (process_options initial_state opts) as [st0|r] eqn:Hopts.
  - apply process_options_ready in Hopts as (Hi & He & _).
    assert (0 < size (included_tables st0)) as Hin.
    { apply (size_pos_elem _ a). rewrite Hi.
      apply elem_of_union_l, elem_of_list_to_set. by apply elem_of_optargs. }
    assert (0 < size (excluded_tables st0)) as Hex.
    { apply (size_pos_elem _ b). rewrite He.
      apply elem_of_union_l, elem_of_list_to_set. by apply elem_of_optargs. }
    destruct operands as [|name [|? ?]]; [by eexists| |by eexists].
    simpl. rewrite !bool_decide_eq_true_2 by done. by eexists.
  - exists r. split; [done|].
    apply process_options_exit in Hopts as [[e ->]|[-> | ->]]; done.
Qed.

Lemma ctor_include_and_exclude_exits_witness :
  exists r,
    LocalState_ctor (fun _ => true)
      [("i"%char, "T1"); ("o"%char, "out.csv"); ("e"%char, "T2")]
      ["in.byfl"] = Exit r
    /\ forall name, r <> OpenFailed name.
Proof.
  apply (ctor_include_and_exclude_exits (fun _ => true)
           [("i"%char, "T1"); ("o"%char, "out.csv"); ("e"%char, "T2")]
           ["in.byfl"] "T1" "T2").
  - apply elem_of_cons. by left.
  - apply elem_of_cons. right. apply elem_of_cons. right.
    apply elem_of_cons. by left.
Defined.

(** X5. Without an output name, also when the last [-o] names the empty
    string, the constructor opens no file: what it does is the same
    whether or not files can be opened. *)
Theorem ctor_without_output_name (can_open can_open' : string -> bool)
    (opts : list (ascii * string)) (operands : list string)
    (Hnone : default "" (last (optargs "o" opts)) = "") :
  LocalState_ctor can_open opts operands
  = LocalState_ctor can_open' opts operands.
Proof.
  unfold LocalState_ctor.
  destruct (process_options initial_state opts) as [st0|r] eqn:Hopts; [|done].
  apply process_options_ready in Hopts as (_ & _ & _ & Ho & _).
  simpl in Ho. rewrite Hnone in Ho.
  destruct operands as [|name [|? ?]]; try done. simpl.
  destruct (_ && _); [done|].
  by rewrite bool_decide_eq_false_2 by (by rewrite Ho; intros []).
Qed.

Lemma ctor_without_output_name_witness :
  LocalState_ctor (fun _ => false)
    [("o"%char, "out.csv"); ("o"%char, "")] ["in.byfl"]
  = LocalState_ctor (fun _ => true)
      [("o"%char, "out.csv"); ("o"%char, "")] ["in.byfl"].
Proof.
  apply (ctor_without_output_name (fun _ => false) (fun _ => true)
           [("o"%char, "out.csv"); ("o"%char, "")] ["in.byfl"]).
  reflexivity.
Defined.

Lemma process_options_app (opts1 opts2 : list (ascii * string)) :
  forall st : LocalState,
  process_options st (opts1 ++ opts2)
  = match process_options st opts1 with
    | Ready st1 => process_options st1 opts2
    | Exit r => Exit r
    end.
Proof.
  induction opts1 as [|[c a] opts1 IH]; intros st; [done|].
  simpl. option_cases c; simpl; try apply IH; try done.
  destruct (expand_escapes a); [apply IH | done].
Qed.

(** X6. A separator that does not expand ends the process at that option:
    when the options before it are in order, the exit is the escape error
    of that separator, whatever options follow, whatever input files are
    named and whether or not the output file could be opened. *)
Theorem ctor_bad_separator_exits (can_open : string -> bool)
    (before after : list (ascii * string)) (operands : list string)
    (sep : string) (st0 : LocalState) (e : fatal)
    (Hbefore : process_options initial_state before = Ready st0)
    (Hbad : expand_escapes sep = Died e) :
  LocalState_ctor can_open (before ++ ("c"%char, sep) :: after) operands
  = Exit (BadEscape e).
Proof.
  unfold LocalState_ctor. rewrite process_options_app, Hbefore.
  simpl. by rewrite Hbad.
Qed.

Lemma ctor_bad_separator_exits_witness :
  LocalState_ctor (fun _ => true)
    ([("l"%char, "")] ++ ("c"%char, String backslash "q")
       :: [("i"%char, "T"); ("e"%char, "T")]) []
  = Exit (BadEscape (InvalidEscapeSequence "q" (String backslash "q"))).
Proof.
  apply (ctor_bad_separator_exits (fun _ => true) [("l"%char, "")]
           [("i"%char, "T"); ("e"%char, "T")] [] (String backslash "q")
           (set_only_names true initial_state)
           (InvalidEscapeSequence "q" (String backslash "q")));
    reflexivity.
Defined.

(** ** The program name *)

Lemma rfind_none (c : ascii) (s : string) :
  rfind c s = None -> count_char c s = 0.
Proof.
  induction s as [|d s IH]; [done|]. simpl.
  destruct (rfind c s); [done|].
  destruct (Ascii.eqb d c); [done|]. intros _. by rewrite IH.
Qed.

Lemma rfind_some (c : ascii) (s : string) :
  forall pos, rfind c s = Some pos ->
  exists dir,
    s = dir +:+ erase_front (S pos) s
    /\ last_char dir = Some c
    /\ count_char c (erase_front (S pos) s) = 0.
Proof.
  induction s as [|d s IH]; intros pos Hpos; [done|]. simpl in Hpos.
  destruct (rfind c s) as [p|] eqn:Hrest.
  - injection Hpos as <-.
    destruct (IH p eq_refl) as (dir & Hs & Hlast & Hcount).
    exists (String d dir). split_and!.
    + change (String d s = String d (dir +:+ erase_front (S p) s)).
      by rewrite <- Hs.
    + by apply last_char_cons.
    + exact Hcount.
  - destruct (Ascii.eqb_spec d c) as [->|]; [|done].
    injection Hpos as <-. exists (String c "").
    split_and!; try done. simpl. by apply rfind_none.
Qed.

(** X7. The program name used in diagnostics holds no slash and is what
    follows the last slash of [argv[0]]: [argv[0]] is the name itself, or a
    directory part that ends in a slash followed by the name. *)
Theorem progname_of_base (argv0 : string) :
  count_char "/" (progname_of argv0) = 0
  /\ exists dir,
       argv0 = dir +:+ progname_of argv0
       /\ (dir = "" \/ last_char dir = Some "/"%char).
Proof.
  unfold progname_of.
  destruct (rfind "/" argv0) as [slash_ofs|] eqn:Hfind.
  - rewrite Nat.add_1_r.
    destruct (rfind_some _ _ _ Hfind) as (dir & Hs & Hlast & Hcount).
    split; [done|]. exists dir. auto.
  - split; [by apply rfind_none|]. exists "". auto.
Qed.

(** ** What the callbacks keep *)

Ltac callback_cases st ev :=
  destruct ev; simpl;
  unfold begin_any_table, begin_row, any_column_header, end_row,
    write_uint64_value, write_string_value, write_bool_value,
    should_suppress; simpl;
  repeat match goal with
    | |- context [if ?b then _ else _] => destruct b eqn:?; simpl
    end.

Lemma callback_configuration (st : LocalState) (ev : event) :
  infilename (callback st ev) = infilename st
  /\ outfilename (callback st ev) = outfilename st
  /\ colsep (callback st ev) = colsep st
  /\ included_tables (callback st ev) = included_tables st
  /\ excluded_tables (callback st ev) = excluded_tables st
  /\ only_names (callback st ev) = only_names st.
Proof. callback_cases st ev; by split_and!. Qed.

(** X8. No stream changes what the command line set: after any sequence of
    callbacks the separator, the include-set, the exclude-set, the
    only-names flag and the two file names are those of the start. *)
Theorem callbacks_keep_configuration (st : LocalState) (evs : list event) :
  infilename (bf_process_byfl_file st evs) = infilename st
  /\ outfilename (bf_process_byfl_file st evs) = outfilename st
  /\ colsep (bf_process_byfl_file st evs) = colsep st
  /\ included_tables (bf_process_byfl_file st evs) = included_tables st
  /\ excluded_tables (bf_process_byfl_file st evs) = excluded_tables st
  /\ only_names (bf_process_byfl_file st evs) = only_names st.
Proof.
  revert st. induction evs as [|ev evs IH]; intros st; [done|].
  change (bf_process_byfl_file st (ev :: evs))
    with (bf_process_byfl_file (callback st ev) evs).
  destruct (IH (callback st ev)) as (-> & -> & -> & -> & -> & ->).
  apply callback_configuration.
Qed.

Lemma callback_body (st : LocalState) (ev : event) :
  table_name ev = None ->
  suppress_table (callback st ev) = suppress_table st
  /\ tablenum (callback st ev) = tablenum st.
Proof. intros Hev. callback_cases st ev; done. Qed.

(** X9. Between one table-begin call and the next the decision taken for
    the table stands: row, header, value and row-end calls change neither
    the suppress flag nor the table count. *)
Theorem suppress_table_stable_within_table (st : LocalState)
    (evs : list event)
    (Hbody : Forall (fun ev => table_name ev = None) evs) :
  suppress_table (bf_process_byfl_file st evs) = suppress_table st
  /\ tablenum (bf_process_byfl_file st evs) = tablenum st.
Proof.
  revert st. induction Hbody as [|ev evs Hev _ IH]; intros st; [done|].
  change (bf_process_byfl_file st (ev :: evs))
    with (bf_process_byfl_file (callback st ev) evs).
  destruct (IH (callback st ev)) as [-> ->].
  by apply callback_body.
Qed.

Lemma suppress_table_stable_within_table_witness :
  suppress_table
    (bf_process_byfl_file (begin_any_table initial_state "T")
       [column_begin; column_uint64 "A"; column_end; row_begin;
        data_uint64 5; row_end])
  = suppress_table (begin_any_table initial_state "T").
Proof.
  apply (suppress_table_stable_within_table
           (begin_any_table initial_state "T")
           [column_begin; column_uint64 "A"; column_end; row_begin;
            data_uint64 5; row_end]).
  repeat constructor.
Defined.

Lemma callback_after_text (text : string) (st : LocalState) (ev : event) :
  callback (after_text text st) ev = after_text text (callback st ev).
Proof.
  unfold after_text, set_outfile.
  callback_cases st ev; unfold write, set_colnum, set_tablenum,
    set_suppress_table; simpl; rewrite ?append_assoc; congruence.
Qed.

(** X10. Output is only ever appended, and what is already on the stream
    has no influence: running a stream after some earlier text gives that
    text followed by what the stream gives without it, and the same state
    otherwise. *)
Theorem output_is_appended (text : string) (st : LocalState)
    (evs : list event) :
  bf_process_byfl_file (after_text text st) evs
  = after_text text (bf_process_byfl_file st evs).
Proof.
  revert st. induction evs as [|ev evs IH]; intros st; [done|].
  change (bf_process_byfl_file (after_text text st) (ev :: evs))
    with (bf_process_byfl_file (callback (after_text text st) ev) evs).
  by rewrite callback_after_text, IH.
Qed.

(** ** Counting and filtering tables *)

Lemma set_suppress_table_same (st : LocalState) (b : bool) :
  suppress_table st = b -> set_suppress_table b st = st.
Proof. intros <-. by destruct st. Qed.

Lemma shown_tables_callback (st : LocalState) (ev : event)
    (evs : list event) :
  shown_tables (callback st ev) evs = shown_tables st evs.
Proof.
  destruct (callback_configuration st ev) as (_ & _ & _ & Hin & Hex & _).
  by apply shown_tables_same_sets.
Qed.

Lemma process_suppressed (evs : list event) (st : LocalState) :
  suppress_table st = true -> shown_tables st evs = [] ->
  bf_process_byfl_file st evs = st.
Proof.
  induction evs as [|ev evs IH]; intros Hsup Hnone; [done|].
  change (bf_process_byfl_file st (ev :: evs))
    with (bf_process_byfl_file (callback st ev) evs).
  destruct (table_name ev) as [name|] eqn:Hev.
  - rewrite (shown_tables_cons_table st ev evs name Hev) in Hnone.
    destruct (should_suppress st name) eqn:Hf; [|done].
    rewrite (callback_table st ev name Hev).
    rewrite (begin_any_table_filtered st name Hf).
    rewrite (set_suppress_table_same st true Hsup). by apply IH.
  - rewrite (shown_tables_cons_other st ev evs Hev) in Hnone.
    rewrite (callback_suppressed st ev Hsup Hev). by apply IH.
Qed.

(** X11. A stream that starts with a table and in which every table is
    filtered out writes nothing, in full mode and in only-names mode alike,
    and counts no table. *)
Theorem filtered_stream_writes_nothing (st : LocalState) (evs : list event)
    (Hled : table_led evs = true)
    (Hnone : shown_tables st evs = []) :
  outfile (bf_process_byfl_file st evs) = outfile st
  /\ tablenum (bf_process_byfl_file st evs) = tablenum st.
Proof.
  destruct evs as [|ev evs]; [done|].
  simpl in Hled. destruct (table_name ev) as [name|] eqn:Hev; [|done].
  rewrite (shown_tables_cons_table st ev evs name Hev) in Hnone.
  destruct (should_suppress st name) eqn:Hf; [|done].
  change (bf_process_byfl_file st (ev :: evs))
    with (bf_process_byfl_file (callback st ev) evs).
  rewrite (callback_table st ev name Hev).
  rewrite (begin_any_table_filtered st name Hf).
  by rewrite process_suppressed.
Qed.

Lemma filtered_stream_writes_nothing_witness :
  outfile (bf_process_byfl_file
             (exclude_table "T2" (exclude_table "T1" initial_state))
             two_tables)
  = "".
Proof.
  apply (filtered_stream_writes_nothing
           (exclude_table "T2" (exclude_table "T1" initial_state))
           two_tables); reflexivity.
Defined.

Lemma tablenum_begin_any_table (st : LocalState) (name : string) :
  tablenum (begin_any_table st name)
  = if should_suppress st name || only_names st then tablenum st
    else size_t_wrap (tablenum st + 1).
Proof.
  unfold begin_any_table. simpl.
  destruct (should_suppress st name); simpl; [done|].
  destruct (only_names st); simpl; [done|].
  by destruct (0 <? tablenum st)%N.
Qed.

(** X12. In full mode the table count grows by one for each table the
    filter lets through and by nothing else (as long as it stays below
    2^64); in only-names mode it never moves. *)
Theorem tablenum_counts_shown_tables (st : LocalState) (evs : list event) :
  (only_names st = false ->
   (tablenum st + N.of_nat (length (shown_tables st evs)) < 2 ^ 64)%N ->
   tablenum (bf_process_byfl_file st evs)
   = (tablenum st + N.of_nat (length (shown_tables st evs)))%N)
  /\ (only_names st = true ->
      tablenum (bf_process_byfl_file st evs) = tablenum st).
Proof.
  revert st. induction evs as [|ev evs IH]; intros st.
  - split; intros; simpl; lia.
  - change (bf_process_byfl_file st (ev :: evs))
      with (bf_process_byfl_file (callback st ev) evs).
    destruct (IH (callback st ev)) as [IHfull IHnames].
    destruct (callback_configuration st ev) as (_ & _ & _ & _ & _ & Hmode).
    rewrite shown_tables_callback, Hmode in IHfull.
    rewrite Hmode in IHnames.
    destruct (table_name ev) as [name|] eqn:Hev.
    + rewrite (shown_tables_cons_table st ev evs name Hev).
      rewrite (callback_table st ev name Hev) in *.
      rewrite tablenum_begin_any_table in *.
      split.
      * intros Hfull Hroom. rewrite Hfull, orb_false_r in *.
        destruct (should_suppress st name); [by apply IHfull|].
        simpl length in *.
        rewrite size_t_wrap_small in IHfull by lia.
        rewrite IHfull by (done || lia). lia.
      * intros Hnames. rewrite Hnames, orb_true_r in IHnames.
        by apply IHnames.
    + rewrite (shown_tables_cons_other st ev evs Hev).
      destruct (callback_body st ev Hev) as [_ Htab].
      rewrite Htab in *. done.
Qed.

Lemma tablenum_counts_shown_tables_witness :
  tablenum (bf_process_byfl_file (exclude_table "T9" initial_state)
              two_tables)
  = 2%N.
Proof.
  apply (proj1 (tablenum_counts_shown_tables
                  (exclude_table "T9" initial_state) two_tables)).
  - reflexivity.
  - vm_compute. reflexivity.
Defined.

(** ** Rows and tables as text *)

(** Texts each with the separator before it. *)
Lemma texts_from_positive (sep : string) (texts : list string) :
  forall k : N,
  (0 < k)%N -> (k + N.of_nat (length texts) <= 2 ^ 64)%N ->
  texts_from sep k texts
  = concat_strings (map (fun text => sep +:+ text) texts).
Proof.
  induction texts as [|text texts IH]; intros k Hpos Hroom; [done|].
  cbn [texts_from map concat_strings].
  rewrite (proj2 (N.ltb_lt 0 k) Hpos), append_assoc. do 2 f_equal.
  destruct texts as [|text' texts]; [reflexivity|].
  cbn [length] in *.
  rewrite size_t_wrap_small by lia. apply IH; lia.
Qed.

Lemma joined_cons (sep text : string) (texts : list string) :
  joined sep (text :: texts)
  = text +:+ concat_strings (map (fun t => sep +:+ t) texts).
Proof.
  revert text. induction texts as [|t texts IH]; intros text.
  - simpl. by rewrite append_nil_r.
  - change (joined sep (text :: t :: texts))
      with (text +:+ sep +:+ joined sep (t :: texts)).
    rewrite IH. simpl. by rewrite append_assoc.
Qed.

Lemma texts_from_zero_cons (sep text : string) (texts : list string) :
  texts_from sep 0 (text :: texts) = text +:+ texts_from sep 1 texts.
Proof. reflexivity. Qed.

Lemma texts_from_zero (sep : string) (texts : list string) :
  fits_size_t (length texts) ->
  texts_from sep 0 texts = joined sep texts.
Proof.
  unfold fits_size_t. destruct texts as [|text texts]; [done|]. intros Hfit.
  rewrite joined_cons, texts_from_zero_cons. f_equal.
  cbn [length] in Hfit. apply texts_from_positive; lia.
Qed.

Lemma write_nothing (st : LocalState) : write "" st = st.
Proof. destruct st. unfold write. simpl. by rewrite append_nil_r. Qed.

(** Value callbacks in a table that is shown, from any column count. *)
Lemma process_values (evs : list event) (texts : list string) :
  Forall2 (fun ev text => value_text ev = Some text) evs texts ->
  forall st : LocalState,
  suppress_table st = false ->
  exists k,
    bf_process_byfl_file st evs
    = set_colnum k (write (texts_from (colsep st) (colnum st) texts) st).
Proof.
  induction 1 as [|ev text evs texts Hev _ IH]; intros st Hshown.
  - exists (colnum st). simpl. rewrite write_nothing. by destruct st.
  - change (bf_process_byfl_file st (ev :: evs))
      with (bf_process_byfl_file (callback st ev) evs).
    rewrite (callback_value st ev text Hshown Hev).
    destruct (IH (cell_written st text) Hshown) as [k ->].
    exists k. unfold cell_written, write, set_colnum. simpl.
    by rewrite !append_assoc.
Qed.

Lemma process_row (st : LocalState) (start stop : event)
    (evs : list event) (texts : list string) :
  is_row_begin start = true -> is_row_end stop = true ->
  Forall2 (fun ev text => value_text ev = Some text) evs texts ->
  suppress_table st = false ->
  exists k,
    bf_process_byfl_file st (start :: evs ++ [stop])
    = set_colnum k (write (texts_from (colsep st) 0 texts +:+ nl) st).
Proof.
  intros Hstart Hstop Hevs Hshown.
  change (bf_process_byfl_file st (start :: evs ++ [stop]))
    with (bf_process_byfl_file (callback st start) (evs ++ [stop])).
  assert (callback st start = set_colnum 0 st) as ->.
  { destruct start; try discriminate Hstart; simpl; by apply begin_row_shown. }
  rewrite process_app.
  destruct (process_values evs texts Hevs (set_colnum 0 st) Hshown) as [k ->].
  exists k. simpl.
  assert (forall s, callback s stop = end_row s) as ->
    by (by destruct stop).
  unfold end_row. simpl. rewrite Hshown.
  unfold write, set_colnum, nl. simpl. by rewrite append_assoc.
Qed.

Lemma cell_events_texts (cells : list cell) :
  Forall2 (fun ev text => value_text ev = Some text)
    (map cell_event cells) (map cell_text cells).
Proof. induction cells as [|[] cells IH]; by constructor. Qed.

Lemma column_events_texts (columns : list column) :
  Forall2 (fun ev text => value_text ev = Some text)
    (map column_event columns)
    (map (fun col => quote_for_csv (column_name col)) columns).
Proof. induction columns as [|[] columns IH]; by constructor. Qed.

(** X13. In a table that is shown, a header row and a data row come out as
    the quoted names, or the values in the form of their types, joined by
    the separator and ended by a newline, whatever the column count was
    before; a row without cells is an empty line. The row must have at most
    2^64 cells. *)
Theorem rows_are_joined (st : LocalState)
    (Hshown : suppress_table st = false) :
  (forall cells,
      fits_size_t (length cells) ->
      outfile (bf_process_byfl_file st (row_events cells))
      = outfile st +:+ joined (colsep st) (map cell_text cells) +:+ nl)
  /\ (forall columns,
      fits_size_t (length columns) ->
      outfile (bf_process_byfl_file st (header_events columns))
      = outfile st
        +:+ joined (colsep st)
              (map (fun col => quote_for_csv (column_name col)) columns)
        +:+ nl)
  /\ outfile (bf_process_byfl_file st (row_events [])) = outfile st +:+ nl.
Proof.
  split_and!.
  - intros cells Hfit.
    destruct (process_row st row_begin row_end _ _ eq_refl eq_refl
                (cell_events_texts cells) Hshown) as [k Hrow].
    unfold row_events. rewrite Hrow. simpl.
    by rewrite texts_from_zero by (by rewrite length_map).
  - intros columns Hfit.
    destruct (process_row st column_begin column_end _ _ eq_refl eq_refl
                (column_events_texts columns) Hshown) as [k Hrow].
    unfold header_events. rewrite Hrow. simpl.
    by rewrite texts_from_zero by (by rewrite length_map).
  - simpl. unfold begin_row. rewrite Hshown.
    unfold end_row. simpl. by rewrite Hshown.
Qed.

Lemma rows_are_joined_witness :
  outfile (bf_process_byfl_file
             (set_colsep ";" (begin_any_table initial_state "T"))
             (row_events [string_cell "-x"; uint64_cell 7; bool_cell 1]))
  = outfile (set_colsep ";" (begin_any_table initial_state "T"))
    +:+ joined ";" [quote_for_csv "-x"; "7"; "TRUE"] +:+ nl.
Proof.
  apply (proj1 (rows_are_joined
                  (set_colsep ";" (begin_any_table initial_state "T"))
                  eq_refl)
           [string_cell "-x"; uint64_cell 7; bool_cell 1]).
  unfold fits_size_t. vm_compute. discriminate.
Defined.

Lemma process_rows (rows : list (list cell)) :
  forall st : LocalState,
  suppress_table st = false ->
  exists k,
    bf_process_byfl_file st (concat (map row_events rows))
    = set_colnum k
        (write (concat_strings
                  (map (fun cells =>
                          texts_from (colsep st) 0 (map cell_text cells)
                            +:+ nl) rows)) st).
Proof.
  induction rows as [|cells rows IH]; intros st Hshown.
  - exists (colnum st). simpl. rewrite write_nothing. by destruct st.
  - change (concat (map row_events (cells :: rows)))
      with (row_events cells ++ concat (map row_events rows)).
    rewrite process_app.
    destruct (process_row st row_begin row_end _ _ eq_refl eq_refl
                (cell_events_texts cells) Hshown) as [k1 Hrow].
    unfold row_events at 1. rewrite Hrow.
    destruct (IH (set_colnum k1
                    (write (texts_from (colsep st) 0 (map cell_text cells)
                              +:+ nl) st)) Hshown) as [k ->].
    exists k. unfold write, set_colnum. simpl. by rewrite !append_assoc.
Qed.

Lemma table_body_events (t : table) :
  Forall (fun ev => table_name ev = None)
    (header_events (table_columns t)
       ++ concat (map row_events (table_rows t))).
Proof.
  apply Forall_app. split.
  - unfold header_events. constructor; [done|]. apply Forall_app. split.
    + apply Forall_map, Forall_true. by intros [].
    + by repeat constructor.
  - apply Forall_concat, Forall_map, Forall_true. intros cells.
    unfold row_events. constructor; [done|]. apply Forall_app. split.
    + apply Forall_map, Forall_true. by intros [].
    + by repeat constructor.
Qed.

Lemma shown_tables_body (st : LocalState) (evs : list event) :
  Forall (fun ev => table_name ev = None) evs -> shown_tables st evs = [].
Proof.
  induction 1 as [|ev evs Hev _ IH]; [done|].
  by rewrite shown_tables_cons_other.
Qed.

Lemma table_events_cons (t : table) :
  exists ev,
    table_name ev = Some (table_title t)
    /\ table_events t
       = ev :: header_events (table_columns t)
            ++ concat (map row_events (table_rows t)).
Proof.
  unfold table_events.
  destruct (table_keyval t);
    [exists (table_begin_keyval (table_title t))
    |exists (table_begin_basic (table_title t))]; done.
Qed.

(** Two states with the same fields are the same state. *)
Lemma LocalState_ext (st st' : LocalState) :
  infilename st = infilename st' -> outfilename st = outfilename st' ->
  outfile st = outfile st' -> tablenum st = tablenum st' ->
  colsep st = colsep st' -> colnum st = colnum st' ->
  included_tables st = included_tables st' ->
  excluded_tables st = excluded_tables st' ->
  suppress_table st = suppress_table st' -> only_names st = only_names st' ->
  st = st'.
Proof. destruct st, st'. simpl. by intros -> -> -> -> -> -> -> -> -> ->. Qed.

(** A filtered table leaves only the suppress flag set. *)
Lemma process_table_filtered (st : LocalState) (t : table) :
  should_suppress st (table_title t) = true ->
  bf_process_byfl_file st (table_events t) = set_suppress_table true st.
Proof.
  intros Hf. destruct (table_events_cons t) as (ev & Hev & ->).
  change (bf_process_byfl_file st (ev :: ?evs))
    with (bf_process_byfl_file (callback st ev) evs).
  rewrite (callback_table st ev _ Hev), (begin_any_table_filtered st _ Hf).
  apply process_suppressed; [done|].
  apply shown_tables_body, table_body_events.
Qed.

(** A table that is shown in full mode: the blank line if a table came
    before, then the block. *)
Lemma process_table_shown (st : LocalState) (t : table) :
  only_names st = false ->
  should_suppress st (table_title t) = false ->
  exists k,
    bf_process_byfl_file st (table_events t)
    = set_colnum k
        (write ((if (0 <? tablenum st)%N then nl else "")
                  +:+ table_written (colsep st) t)
           (set_tablenum (size_t_wrap (tablenum st + 1))
              (set_suppress_table false st))).
Proof.
  intros Hfull Hf. destruct (table_events_cons t) as (ev & Hev & ->).
  change (bf_process_byfl_file st (ev :: ?evs))
    with (bf_process_byfl_file (callback st ev) evs).
  rewrite (callback_table st ev _ Hev), process_app.
  assert (suppress_table (begin_any_table st (table_title t)) = false)
    as Hshown.
  { unfold begin_any_table. simpl. rewrite Hf. simpl. rewrite Hfull.
    by destruct (0 <? tablenum st)%N. }
  destruct (process_row (begin_any_table st (table_title t))
              column_begin column_end _ _ eq_refl eq_refl
              (column_events_texts (table_columns t)) Hshown) as [k1 Hhead].
  unfold header_events. rewrite Hhead.
  match goal with
  | |- context [bf_process_byfl_file ?s (concat _)] =>
      destruct (process_rows (table_rows t) s Hshown) as [k ->]
  end.
  exists k. apply LocalState_ext; simpl; try done;
    unfold begin_any_table; simpl; rewrite Hf; simpl; rewrite Hfull;
    destruct (0 <? tablenum st)%N; simpl; try done;
    unfold table_written, name_line, nl; by rewrite !append_assoc.
Qed.

Lemma filter_table_shown_same_sets (st st' : LocalState)
    (tables : list table) :
  included_tables st' = included_tables st ->
  excluded_tables st' = excluded_tables st ->
  List.filter (table_shown st') tables = List.filter (table_shown st) tables.
Proof.
  intros Hin Hex. unfold table_shown, should_suppress. by rewrite Hin, Hex.
Qed.

(** A stream of whole tables in full mode, from any state. *)
Lemma process_stream (tables : list table) :
  forall st : LocalState,
  only_names st = false ->
  outfile (bf_process_byfl_file st (stream_of tables))
  = outfile st
    +:+ texts_from nl (tablenum st)
          (map (table_written (colsep st))
             (List.filter (table_shown st) tables)).
Proof.
  induction tables as [|t tables IH]; intros st Hfull.
  - simpl. by rewrite append_nil_r.
  - change (stream_of (t :: tables))
      with (table_events t ++ stream_of tables).
    rewrite process_app. simpl List.filter. unfold table_shown at 1.
    destruct (should_suppress st (table_title t)) eqn:Hf; simpl negb; cbv iota.
    + rewrite (process_table_filtered st t Hf), IH by done.
      by rewrite (filter_table_shown_same_sets st) by done.
    + destruct (process_table_shown st t Hfull Hf) as [k ->].
      rewrite IH by done.
      rewrite (filter_table_shown_same_sets st) by done.
      simpl. by rewrite !append_assoc.
Qed.

Lemma table_written_text (sep : string) (t : table) :
  table_fits t -> table_written sep t = table_text sep t.
Proof.
  intros [Hcols Hrows]. unfold table_written, table_text, row_text.
  rewrite texts_from_zero by (by rewrite length_map).
  do 3 f_equal. induction Hrows as [|cells rows Hfit _ IH]; [done|].
  simpl. by rewrite texts_from_zero, IH by (by rewrite length_map).
Qed.

(** X14. In full mode a stream of whole tables comes out as the blocks of
    the tables the filter lets through, in stream order, with one blank
    line between neighbouring blocks and none before the first; a block is
    the quoted name line, the header row and the data rows. The state must
    have counted no table yet, and rows and tables must be at most 2^64. *)
Theorem tables_are_rendered (st : LocalState) (tables : list table)
    (Hfull : only_names st = false)
    (Hfresh : tablenum st = 0%N)
    (Hcount : fits_size_t (length (List.filter (table_shown st) tables)))
    (Hfit : Forall table_fits tables) :
  outfile (bf_process_byfl_file st (stream_of tables))
  = outfile st
    +:+ joined nl (map (table_text (colsep st))
                     (List.filter (table_shown st) tables)).
Proof.
  rewrite process_stream, Hfresh by done.
  rewrite texts_from_zero by (by rewrite length_map). do 2 f_equal.
  clear Hcount. induction Hfit as [|t tables Ht _ IH]; [done|].
  simpl. destruct (table_shown st t); [|done].
  simpl. by rewrite table_written_text, IH.
Qed.

Lemma tables_are_rendered_witness :
  outfile (bf_process_byfl_file (exclude_table "U" initial_state)
             (stream_of [ sample_table;
                          mkTable true "U" [uint64_column "c"] [];
                          mkTable true "V" [] [[]] ]))
  = joined nl [ table_text "," sample_table;
                table_text "," (mkTable true "V" [] [[]]) ].
Proof.
  apply (tables_are_rendered (exclude_table "U" initial_state)
           [ sample_table; mkTable true "U" [uint64_column "c"] [];
             mkTable true "V" [] [[]] ]).
  - reflexivity.
  - reflexivity.
  - unfold fits_size_t. vm_compute. discriminate.
  - repeat constructor; unfold fits_size_t; vm_compute; discriminate.
Defined.

(** ** More on the quoter *)

Lemma append_last_inj (s t : string) (c : ascii) :
  s +:+ String c "" = t +:+ String c "" -> s = t.
Proof.
  revert t. induction s as [|d s IH]; intros [|e t] Heq; simpl in Heq.
  - done.
  - injection Heq as _ Heq. by destruct t.
  - injection Heq as _ Heq. by destruct s.
  - injection Heq as -> Heq. f_equal. by apply IH.
Qed.

Lemma doubled_inj (s t : string) : doubled s = doubled t -> s = t.
Proof.
  intros Heq. rewrite <- (collapse_doubled s), <- (collapse_doubled t).
  by rewrite Heq.
Qed.

(** X15. The quoter loses nothing: two different values never get the same
    quoted text. *)
Theorem quote_for_csv_injective (s t : string) (Hdiff : s <> t) :
  quote_for_csv s <> quote_for_csv t.
Proof.
  intros Hsame. apply Hdiff.
  rewrite !quote_for_csv_closed in Hsame.
  do 2 case_bool_decide; simpl in Hsame; try discriminate Hsame.
  - injection Hsame as Hsame. by apply doubled_inj, (append_last_inj _ _ dquote).
  - injection Hsame as Hsame. by apply doubled_inj, (append_last_inj _ _ dquote).
Qed.

Lemma quote_for_csv_injective_witness :
  quote_for_csv (String dquote "") <> quote_for_csv (String dquote dq).
Proof.
  apply (quote_for_csv_injective (String dquote "") (String dquote dq)).
  discriminate.
Defined.

Lemma length_append (s t : string) :
  String.length (s +:+ t) = String.length s + String.length t.
Proof. induction s as [|c s IH]; simpl; [done | by rewrite IH]. Qed.

Lemma length_doubled (s : string) :
  String.length (doubled s) = String.length s + count_char dquote s.
Proof.
  induction s as [|c s IH]; [done|]. simpl.
  destruct (Ascii.eqb c dquote); simpl; rewrite IH; lia.
Qed.

(** X16. The quoted text is longer than the value by the two enclosing
    double quotes, one character for each double quote in the value, and
    one more for the equals sign when the value starts with a minus sign;
    so it is never longer than twice the value plus three. *)
Theorem quote_for_csv_length (s : string) :
  String.length (quote_for_csv s)
  = String.length s + count_char dquote s + 2
    + (if bool_decide (first_char s = Some "-"%char) then 1 else 0)
  /\ String.length (quote_for_csv s) <= 2 * String.length s + 3.
Proof.
  assert (count_char dquote s <= String.length s) as Hcount.
  { induction s as [|c s IH]; simpl; [lia|].
    destruct (Ascii.eqb c dquote); lia. }
  rewrite quote_for_csv_closed.
  case_bool_decide; simpl; rewrite length_append, length_doubled; simpl; lia.
Qed.

(** ** More on the escape expander *)

(** The loop does not look at [in_str] or at what [out_str] holds: run
    from the same position with the same flag it returns the same added
    text, or dies on the same character. *)
Lemma expand_escapes_from_shift (iter : string) :
  forall (escape_next : bool) (in1 in2 out1 out2 : string),
  match expand_escapes_from in1 iter out1 escape_next with
  | Returned r =>
      exists added,
        r = out1 +:+ added
        /\ expand_escapes_from in2 iter out2 escape_next
           = Returned (out2 +:+ added)
  | Died e =>
      exists c,
        e = InvalidEscapeSequence c in1
        /\ expand_escapes_from in2 iter out2 escape_next
           = Died (InvalidEscapeSequence c in2)
  end.
Proof.
  induction iter as [|a iter IH]; intros escape_next in1 in2 out1 out2.
  - simpl. exists "". by rewrite !append_nil_r.
  - destruct escape_next.
    + rewrite !escaped_step. destruct (unescape a) as [d|]; [|by exists a].
      specialize (IH false in1 in2 (push_back out1 d) (push_back out2 d)).
      destruct (expand_escapes_from in1 iter (push_back out1 d) false)
        as [r|e]; [|done].
      destruct IH as (added & -> & ->). exists (String d added).
      unfold push_back. by rewrite !append_assoc.
    + simpl. destruct (Ascii.eqb a backslash); [apply IH|].
      specialize (IH false in1 in2 (push_back out1 a) (push_back out2 a)).
      destruct (expand_escapes_from in1 iter (push_back out1 a) false)
        as [r|e]; [|done].
      destruct IH as (added & -> & ->). exists (String a added).
      unfold push_back. by rewrite !append_assoc.
Qed.

(** What the loop returns, when it returns. *)
Lemma returned_both (in_str iter : string) :
  (forall out_str r,
      expand_escapes_from in_str iter out_str false = Returned r ->
      r = out_str +:+ expand_spec iter)
  /\ (forall out_str r,
      expand_escapes_from in_str iter out_str true = Returned r ->
      r = out_str +:+ expand_spec (String backslash iter)).
Proof.
  induction iter as [|a iter [IHplain IHesc]]; split; intros out_str r Hret.
  - injection Hret as <-. simpl. by rewrite append_nil_r.
  - injection Hret as <-. simpl. by rewrite append_nil_r.
  - simpl in Hret. destruct (Ascii.eqb_spec a backslash) as [->|Hne].
    + by apply IHesc in Hret.
    + apply IHplain in Hret as ->. simpl.
      destruct (Ascii.eqb_spec a backslash); [done|].
      unfold push_back. by rewrite append_assoc.
  - rewrite escaped_step in Hret.
    change (expand_spec (String backslash (String a iter)))
      with (String (default a (unescape a)) (expand_spec iter)).
    destruct (unescape a) as [d|]; [|done].
    apply IHplain in Hret as ->. simpl.
    unfold push_back. by rewrite append_assoc.
Qed.

Lemma length_expand_spec_both (s : string) :
  String.length (expand_spec s) <= String.length s
  /\ forall c, String.length (expand_spec (String c s)) <= S (String.length s).
Proof.
  induction s as [|a s [IHhere IHnext]].
  - split; [done|]. intros c. simpl. destruct (Ascii.eqb c backslash); simpl; lia.
  - assert (String.length (expand_spec (String a s)) <= S (String.length s))
      as Hhere by apply IHnext.
    split; [done|]. intros c.
    change (expand_spec (String c (String a s)))
      with (if Ascii.eqb c backslash
            then String (default a (unescape a)) (expand_spec s)
            else String c (expand_spec (String a s))).
    destruct (Ascii.eqb c backslash); simpl in *; lia.
Qed.

Lemma plain_string (s : string) :
  count_char backslash s = 0 -> well_escaped s = true /\ expand_spec s = s.
Proof.
  induction s as [|c s IH]; [done|]. simpl.
  destruct (Ascii.eqb c backslash); [done|]. simpl. intros Hnone.
  destruct (IH Hnone) as [-> ->]. done.
Qed.

(** X17. A separator without a backslash is taken as it is. *)
Theorem expand_escapes_plain (s : string)
    (Hplain : count_char backslash s = 0) :
  expand_escapes s = Returned s.
Proof.
  destruct (plain_string s Hplain) as [Hwf Hsame].
  unfold expand_escapes. rewrite <- (append_nil_r s) at 2.
  rewrite expand_prefix by done. by rewrite Hsame.
Qed.

Lemma expand_escapes_plain_witness : expand_escapes " | " = Returned " | ".
Proof. apply (expand_escapes_plain " | "). reflexivity. Defined.

(** X18. Whenever the expander returns, also on an input that ends in a
    lone backslash, the result is the input read left to right with each
    escape replaced by its character and a final lone backslash dropped,
    and it is never longer than the input. *)
Theorem expand_escapes_returned (s out_str : string)
    (Hret : expand_escapes s = Returned out_str) :
  out_str = expand_spec s
  /\ String.length out_str <= String.length s.
Proof.
  apply returned_both in Hret. simpl in Hret. subst out_str.
  split; [done|]. apply length_expand_spec_both.
Qed.

Lemma expand_escapes_returned_witness :
  String "a" (String tab "") = expand_spec ("a" +:+ String backslash "t"
                                         +:+ String backslash "").
Proof.
  apply (expand_escapes_returned
           ("a" +:+ String backslash "t" +:+ String backslash "")
           (String "a" (String tab ""))).
  reflexivity.
Defined.

(** X19. Expansion goes piece by piece: after a first part in which every
    escape is complete and recognized, the second part is expanded as it
    would be alone. If the second part alone returns, the whole returns the
    two expansions one after the other; if it dies, the whole dies on the
    same character, reported with the whole input. *)
Theorem expand_escapes_append (s1 s2 : string)
    (Hwf : well_escaped s1 = true) :
  (forall out2,
      expand_escapes s2 = Returned out2 ->
      expand_escapes (s1 +:+ s2) = Returned (expand_spec s1 +:+ out2))
  /\ (forall c,
      expand_escapes s2 = Died (InvalidEscapeSequence c s2) ->
      expand_escapes (s1 +:+ s2)
      = Died (InvalidEscapeSequence c (s1 +:+ s2))).
Proof.
  unfold expand_escapes.
  pose proof (expand_escapes_from_shift s2 false s2 (s1 +:+ s2) ""
                ("" +:+ expand_spec s1)) as Hshift.
  split.
  - intros out2 Hret. rewrite Hret in Hshift.
    destruct Hshift as (added & -> & Hwhole).
    by rewrite expand_prefix.
  - intros c Hdie. rewrite Hdie in Hshift.
    destruct Hshift as (c' & [= <-] & Hwhole).
    by rewrite expand_prefix.
Qed.

Lemma expand_escapes_append_witness :
  expand_escapes ((String backslash "t") +:+ (String backslash "q"))
  = Died (InvalidEscapeSequence "q"
            ((String backslash "t") +:+ (String backslash "q"))).
Proof.
  apply (proj2 (expand_escapes_append (String backslash "t")
                  (String backslash "q") eq_refl)).
  reflexivity.
Defined.

(** The sample table in full mode with the default separator. *)
Example sample_table_rendered :
  outfile (bf_process_byfl_file initial_state (stream_of [sample_table]))
  = dq +:+ "T" +:+ dq +:+ nl
    +:+ dq +:+ "k" +:+ dq +:+ "," +:+ dq +:+ "n" +:+ dq +:+ ","
    +:+ dq +:+ "b" +:+ dq +:+ nl
    +:+ "=" +:+ dq +:+ "-x" +:+ dq +:+ ",7,TRUE" +:+ nl
    +:+ dq +:+ dq +:+ dq +:+ dq +:+ ",0,FALSE" +:+ nl.
Proof. reflexivity. Qed.
